(** * lentil notebooks: interaction histories, filtering and synthetic data

    A shallow embedding of the data-preparation and data-synthesis code of
    the lentil research notebooks:

    - the three data-set parsers ([interaction_history_from_grockit_data_set],
      [interaction_history_from_kdd_cup_data_set],
      [interaction_history_from_assistments_data_set]), [filter_history],
      [get_pass_rates], [make_flow_graph] and [make_conn_graph] of the
      data-exploration notebook;
    - the synthetic 1PL/2PL generator with its index maps and the synthetic
      embedding generator of the synthetic-experiments notebook.

    Data frames are lists of row records (a row keeps its pandas index
    label), Python dictionaries are [gmap]s, Python sets are [gset]s,
    numpy arrays are lists indexed with stdpp's lookup and insert.  Column
    values that pandas stores as floats are rationals ([Q], [None] for
    NaN/NaT) in the parsers, and real numbers ([R]) in the generators, where
    [exp] and the Euclidean norm are needed; the random number generator is
    an explicit stream of draws threaded through the generators. *)

From Stdlib Require Import ZArith QArith Reals Lra Lia Ascii.
From stdpp Require Import base option list sorting sets gmap strings pretty.

Close Scope Q_scope.
Close Scope R_scope.
Close Scope Z_scope.

(** ** The normalized interaction table (lentil.datatools) *)

Module DataTools.

(** [datatools.AssessmentInteraction.MODULETYPE] and
    [datatools.LessonInteraction.MODULETYPE]. *)
Inductive ModuleType := Assessment | Lesson.

#[export] Instance ModuleType_eq_dec : EqDecision ModuleType.
Proof. solve_decision. Defined.

(** One row of the interaction table.  [index] is the pandas index label
    the row carries through selections, copies and concatenations. *)
Record Interaction := mkInteraction {
  index : nat;
  student_id : Z;
  module_id : Z;
  module_type : ModuleType;
  outcome : option bool;
  timestep : nat;
  duration : option Q;
  timestamp : option Z
}.

Definition set_module_type (ty : ModuleType) (r : Interaction) : Interaction :=
  mkInteraction (index r) (student_id r) (module_id r) ty (outcome r)
                (timestep r) (duration r) (timestamp r).

Definition set_timestep (t : nat) (r : Interaction) : Interaction :=
  mkInteraction (index r) (student_id r) (module_id r) (module_type r)
                (outcome r) t (duration r) (timestamp r).

(** [DataFrame.sort(column)]: ascending, missing keys (NaN, NaT) last.
    pandas does not promise an order among equal keys; the embedding sorts
    with stdpp's merge sort. *)
Definition key_le (a b : option Z) : bool :=
  match a, b with
  | Some x, Some y => bool_decide (x ≤ y)%Z
  | _, None => true
  | None, Some _ => false
  end.

Definition sort_values {A : Type} (key : A → option Z) (l : list A) : list A :=
  merge_sort (λ a b, key_le (key a) (key b)) l.

(** The distinct timesteps of one student in a frame. *)
Definition student_timesteps (data : list Interaction) (s : Z) : gset nat :=
  list_to_set (timestep <$> filter (λ r, student_id r = s) data).

(** Modelled from the spec: the [reindex_timesteps=True] option of the
    [datatools.InteractionHistory] constructor, whose code is not part of
    the notebooks.  The spec has a re-filtered history carry re-indexed
    timesteps that form, per student, a contiguous range starting at 1 in
    the order of that student's own history: a timestep becomes its rank
    among the distinct timesteps of the same student. *)
Definition rank (ts : gset nat) (t : nat) : nat :=
  size (filter (λ t', t' ≤ t) ts).

Definition reindex (data : list Interaction) : list Interaction :=
  (λ r, set_timestep (rank (student_timesteps data (student_id r)) (timestep r)) r)
    <$> data.

Record InteractionHistory := mkHistory { data : list Interaction }.

(** Modelled from the spec: the constructor [datatools.InteractionHistory]
    ([lentil.datatools] is not part of the notebooks).  It stores the
    frame it is given, sorted by the timestep column when
    [sort_by_timestep] is set and with the timesteps re-indexed when
    [reindex_timesteps] is set; the index maps it also builds are not
    modelled. *)
Definition new_InteractionHistory
    (df : list Interaction) (sort_by_timestep reindex_timesteps : bool)
    : InteractionHistory :=
  let df := if sort_by_timestep then sort_values (λ r, Some (Z.of_nat (timestep r))) df
            else df in
  let df := if reindex_timesteps then reindex df else df in
  mkHistory df.

End DataTools.

(** ** The data-set parsers *)

Module Parsers.
Import DataTools.

(** A frame after "get relevant columns and rename them": the outcome is
    still the raw number, [None] where the file has no value. *)
Record Row := mkRow {
  row_index : nat;
  row_student_id : Z;
  row_outcome : option Q;
  row_module_id : Z;
  row_timestamp : option Z;
  row_duration : option Q
}.

(** [(data['outcome']==1) | (data['outcome']==0)]; a comparison with NaN
    is false. *)
Definition binary_outcome (r : Row) : bool :=
  match row_outcome r with
  | Some x => Qeq_bool x 1 || Qeq_bool x 0
  | None => false
  end.

(** [data['duration'] > 0]. *)
Definition positive_duration (r : Row) : bool :=
  match row_duration r with
  | Some d => negb (Qle_bool d 0)
  | None => false
  end.

Definition keep (r : Row) : bool := binary_outcome r && positive_duration r.

(** [lambda x: x == 1]. *)
Definition cast_outcome (x : option Q) : bool :=
  match x with
  | Some x => Qeq_bool x 1
  | None => false
  end.

(** The loop over [data.iterrows()]:
    [student_timesteps[sid] += 1; timesteps[i] = student_timesteps[sid]]
    on a [defaultdict(int)]. *)
Fixpoint count_timesteps (student_timesteps : gmap Z nat) (students : list Z)
    : list nat :=
  match students with
  | [] => []
  | sid :: rest =>
      let student_timesteps :=
        <[sid := S (student_timesteps !!! sid)]> student_timesteps in
      (student_timesteps !!! sid) :: count_timesteps student_timesteps rest
  end.

(** The assessment frame: the selection of the rows to keep, the cast of
    the outcome column, the (optional) change of unit of the duration
    column, and the new columns [timestep] and [module_type]. *)
Definition assessment_row (unit : Q → Q) (r : Row) (t : nat) : Interaction :=
  mkInteraction (row_index r) (row_student_id r) (row_module_id r) Assessment
                (Some (cast_outcome (row_outcome r))) t
                (unit <$> row_duration r) (row_timestamp r).

Definition assessment_frame (unit : Q → Q) (data : list Row) : list Interaction :=
  let data := filter (λ r, keep r) data in
  let timesteps := count_timesteps ∅ (row_student_id <$> data) in
  zip_with (assessment_row unit) data timesteps.

(** [lesson_data = data.copy(deep=True)] with the [module_type] column
    overwritten. *)
Definition lesson_frame (data : list Interaction) : list Interaction :=
  set_module_type Lesson <$> data.

(** *** Grockit *)

Record GrockitRow := mkGrockitRow {
  g_index : nat;
  g_user_id : Z;
  g_correct : option Q;
  g_question_id : Z;
  g_round_started_at : option Z;   (* seconds; [None] is NaT *)
  g_answered_at : option Z
}.

(** [(answered_at - round_started_at) / np.timedelta64(1, 's')]. *)
Definition grockit_duration (r : GrockitRow) : option Q :=
  match g_answered_at r, g_round_started_at r with
  | Some a, Some s => Some (inject_Z (a - s))
  | _, _ => None
  end.

Definition grockit_columns (r : GrockitRow) : Row :=
  mkRow (g_index r) (g_user_id r) (g_correct r) (g_question_id r)
        (g_answered_at r) (grockit_duration r).

Definition interaction_history_from_grockit_data_set (data : list GrockitRow)
    : InteractionHistory :=
  let data := sort_values g_answered_at data in
  let data := grockit_columns <$> data in
  let data := assessment_frame (λ d, d) data in
  let lesson_data := lesson_frame data in
  new_InteractionHistory (data ++ lesson_data) true false.

(** *** KDD Cup 2010 *)

Record KddRow := mkKddRow {
  k_index : nat;
  k_anon_student_id : Z;
  k_correct_first_attempt : option Q;
  k_problem_name : Z;
  k_step_duration : option Q;
  k_step_start_time : option Z
}.

Definition kdd_columns (r : KddRow) : Row :=
  mkRow (k_index r) (k_anon_student_id r) (k_correct_first_attempt r)
        (k_problem_name r) None (k_step_duration r).

Definition interaction_history_from_kdd_cup_data_set (data : list KddRow)
    : InteractionHistory :=
  let data := sort_values k_step_start_time data in
  let data := kdd_columns <$> data in
  let data := assessment_frame (λ d, d) data in
  let lesson_data := lesson_frame data in
  new_InteractionHistory (data ++ lesson_data) true false.

(** *** Assistments *)

Record AssistmentsRow := mkAssistmentsRow {
  a_index : nat;
  a_user_id : Z;
  a_correct : option Q;
  a_ms_first_response_time : option Q;
  a_problem_id : Z;
  a_order_id : Z
}.

Definition assistments_columns
    (duration_column : AssistmentsRow → option Q)
    (module_id_column : AssistmentsRow → Z) (r : AssistmentsRow) : Row :=
  mkRow (a_index r) (a_user_id r) (a_correct r) (module_id_column r)
        None (duration_column r).

(** [lambda x: x / 1000]: milliseconds to seconds. *)
Definition ms_to_s (x : Q) : Q := (x / 1000)%Q.

Definition interaction_history_from_assistments_data_set
    (data : list AssistmentsRow)
    (duration_column : AssistmentsRow → option Q)
    (module_id_column : AssistmentsRow → Z) : InteractionHistory :=
  let data := sort_values (λ r, Some (a_order_id r)) data in
  let data := assistments_columns duration_column module_id_column <$> data in
  let data := assessment_frame ms_to_s data in
  let lesson_data := lesson_frame data in
  new_InteractionHistory (data ++ lesson_data) true false.

End Parsers.


(** ** Filtering an interaction history *)

Module Filter.
Import DataTools.

(** [sys.maxsize] on a 64-bit platform, the default of [max_num_ixns]. *)
Definition sys_maxsize : Z := 9223372036854775807.

(** [history.data.groupby('module_id')]: one group per module id, with the
    rows of that module. *)
Definition groupby_module_id (df : list Interaction) : list (Z * list Interaction) :=
  (λ m, (m, filter (λ r, module_id r = m) df))
    <$> elements (list_to_set (module_id <$> df) : gset Z).

(** [students]: the students with an assessment interaction at a timestep
    above [min_num_ixns], less those with an interaction at a timestep of
    [max_num_ixns] or more. *)
Definition kept_students (df : list Interaction) (min_num_ixns max_num_ixns : Z)
    : gset Z :=
  let students : gset Z :=
    list_to_set (student_id <$>
      filter (λ r, (min_num_ixns < Z.of_nat (timestep r))%Z
                   ∧ module_type r = Assessment) df) in
  students ∖ list_to_set (student_id <$>
    filter (λ r, (max_num_ixns ≤ Z.of_nat (timestep r))%Z) df).

(** [modules]: the modules whose group has more than [min_num_ixns] rows. *)
Definition kept_modules (df : list Interaction) (min_num_ixns : Z) : gset Z :=
  list_to_set (fst <$>
    filter (λ g, (min_num_ixns < Z.of_nat (length (snd g)))%Z)
           (groupby_module_id df)).

(** [history.data[(student_id.isin(students)) & (module_id.isin(modules))]]. *)
Definition selected_rows
    (history : InteractionHistory) (min_num_ixns max_num_ixns : Z)
    : list Interaction :=
  let df := data history in
  let students := kept_students df min_num_ixns max_num_ixns in
  let modules := kept_modules df min_num_ixns in
  filter (λ r, student_id r ∈ students ∧ module_id r ∈ modules) df.

Definition filter_history
    (history : InteractionHistory) (min_num_ixns max_num_ixns : Z)
    : InteractionHistory :=
  new_InteractionHistory (selected_rows history min_num_ixns max_num_ixns)
                         false true.

(** [filter_history(history)] with the default thresholds. *)
Definition filter_history_default (history : InteractionHistory) : InteractionHistory :=
  filter_history history 5 sys_maxsize.

(** The filtering cell of the notebook:
    [reduce(lambda acc, _: filter_history(acc, min_num_ixns=75, max_num_ixns=1000),
            list(range(REPEATED_FILTER)), unfiltered_history)]. *)
Definition REPEATED_FILTER : nat := 3.

Definition repeated_filter (unfiltered_history : InteractionHistory) : InteractionHistory :=
  foldl (λ acc _, filter_history acc 75 1000) unfiltered_history (seq 0 REPEATED_FILTER).


Definition num_module_ixns (df : list Interaction) (m : Z) : nat :=
  length (filter (λ r, module_id r = m) df).


End Filter.


(** ** Random draws and the generator monad *)

Module Rand.

(** The random number generators the notebooks draw from, as streams: the
    [k]-th draw of each kind is a value of the stream.  [py_random] and
    [np_random] are the numbers in [[0, 1)] that [random.random()] and
    [np.random.random()] return, [py_randbits] the integers that
    [random.choice], [random.randint] and [random.shuffle] reduce to an
    index, [np_standard_normal] the standard normal variates behind
    [np.random.normal]. *)
Record Rng := mkRng {
  py_random : nat → R;
  py_randbits : nat → nat;
  np_standard_normal : nat → R;
  np_random : nat → R
}.

(** How many draws of each kind have been made. *)
Record RngState := mkRngState {
  py_random_pos : nat;
  py_randbits_pos : nat;
  np_normal_pos : nat;
  np_random_pos : nat
}.

Definition seed : RngState := mkRngState 0 0 0 0.

#[export] Instance Rlt_decision : RelDecision Rlt := Rlt_dec.

(** A computation that reads and updates a state and may raise a Python
    exception ([None]). *)
Definition gen (St A : Type) : Type := St → option (A * St).

#[export] Instance gen_ret {St} : MRet (gen St) := λ A x σ, Some (x, σ).
#[export] Instance gen_bind {St} : MBind (gen St) :=
  λ A B f m σ, match m σ with Some (x, σ') => f x σ' | None => None end.

Definition raise {St A} : gen St A := λ _, None.
Definition gets {St A} (f : St → A) : gen St A := λ σ, Some (f σ, σ).
Definition modify {St} (f : St → St) : gen St unit := λ σ, Some (tt, f σ).

(** An indexing [l[i]] or [d[k]] that raises when there is no such element. *)
Definition item {St A} (o : option A) : gen St A :=
  match o with Some x => mret x | None => raise end.

(** [for x in l: body] *)
Fixpoint for_each {St A} (l : list A) (body : A → gen St unit) : gen St unit :=
  match l with
  | [] => mret tt
  | x :: l' => body x ≫= λ _, for_each l' body
  end.

Section Draws.
Context (rng : Rng).

(** [random.random()] *)
Definition random_random (σ : RngState) : R * RngState :=
  (py_random rng (py_random_pos σ),
   mkRngState (S (py_random_pos σ)) (py_randbits_pos σ) (np_normal_pos σ)
              (np_random_pos σ)).

(** [random._randbelow(n)], for [0 < n]. *)
Definition randbelow (n : nat) (σ : RngState) : nat * RngState :=
  (py_randbits rng (py_randbits_pos σ) `mod` n,
   mkRngState (py_random_pos σ) (S (py_randbits_pos σ)) (np_normal_pos σ)
              (np_random_pos σ)).

(** [random.randint(a, b)] *)
Definition random_randint (a b : nat) (σ : RngState) : nat * RngState :=
  let '(k, σ) := randbelow (b - a + 1) σ in (a + k, σ).

(** [random.choice(seq)]; an empty [seq] raises [IndexError]. *)
Definition random_choice {A} (seq : list A) (σ : RngState) : option (A * RngState) :=
  let '(k, σ) := randbelow (length seq) σ in
  x ← seq !! k; Some (x, σ).

(** [random.shuffle(x)]:
    [for i in reversed(range(1, len(x))): j = randbelow(i + 1);
     x[i], x[j] = x[j], x[i]]. *)
Definition swap {A} (x : list A) (i j : nat) : list A :=
  match x !! i, x !! j with
  | Some xi, Some xj => <[j := xi]> (<[i := xj]> x)
  | _, _ => x
  end.

Definition random_shuffle {A} (x : list A) (σ : RngState) : list A * RngState :=
  foldl (λ '(x, σ) i, let '(j, σ) := randbelow (i + 1) σ in (swap x i j, σ))
        (x, σ) (reverse (seq 1 (length x - 1))).

(** [np.random.normal(loc, scale, size)] *)
Definition np_random_normal (loc scale : R) (size : nat) (σ : RngState)
    : list R * RngState :=
  ((λ k, loc + scale * np_standard_normal rng (np_normal_pos σ + k))%R <$> seq 0 size,
   mkRngState (py_random_pos σ) (py_randbits_pos σ) (np_normal_pos σ + size)
              (np_random_pos σ)).

(** [np.random.random()] *)
Definition np_random_random (σ : RngState) : R * RngState :=
  (np_random rng (np_random_pos σ),
   mkRngState (py_random_pos σ) (py_randbits_pos σ) (np_normal_pos σ)
              (S (np_random_pos σ))).

End Draws.

(** [np.dot], [np.linalg.norm] and the logistic function
    [1 / (1 + math.exp(-x))]. *)
Definition dot (u v : list R) : R := foldr Rplus 0%R (zip_with Rmult u v).
Definition norm (v : list R) : R := sqrt (dot v v).
Definition sigmoid (x : R) : R := (1 / (1 + exp (- x)))%R.

(** A row of a synthetic interaction table. *)
Record Ixn := mkIxn {
  student_id : string;
  module_id : string;
  module_type : DataTools.ModuleType;
  outcome : option bool;
  timestep : nat
}.

End Rand.


(** ** The synthetic 1PL/2PL generator *)

Module IRT.
Import DataTools Rand.

Section Generator.
Context (rng : Rng).
Context (num_students num_assessments num_ixns_per_student : nat).
Context (USING_2PL : bool).

(** The true parameters of the model. *)
Record Params := mkParams {
  proficiencies : list R;
  difficulties : list R;
  discriminabilities : list R
}.

Definition draw_params (σ : RngState) : Params * RngState :=
  let '(proficiencies, σ) := np_random_normal rng 0 1 num_students σ in
  let '(difficulties, σ) := np_random_normal rng 0 1 num_assessments σ in
  let '(discriminabilities, σ) :=
    if USING_2PL then np_random_normal rng 0 1 num_assessments σ
    else (replicate num_assessments 1%R, σ) in
  (mkParams proficiencies difficulties discriminabilities, σ).

Definition student_ids : list string := (λ x, "S" +:+ pretty x) <$> seq 0 num_students.
Definition assessment_ids : list string := (λ x, "A" +:+ pretty x) <$> seq 0 num_assessments.

(** [1 / (1 + math.exp(-(discriminabilities[module_idx]
                          * proficiencies[student_idx]
                          + difficulties[module_idx])))] *)
Definition pass_likelihood (p : Params) (student_idx module_idx : nat) : option R :=
  a ← discriminabilities p !! module_idx;
  θ ← proficiencies p !! student_idx;
  b ← difficulties p !! module_idx;
  Some (1 / (1 + exp (- (a * θ + b))))%R.

(** The state of the sampling loop: the generators and the list [ixns]. *)
Record State := mkState {
  rng_state : RngState;
  ixns : list (option Ixn)
}.

Definition draw {A} (f : RngState → A * RngState) : gen State A :=
  λ st, let '(x, σ) := f (rng_state st) in Some (x, mkState σ (ixns st)).

Definition draw_or_raise {A} (f : RngState → option (A * RngState)) : gen State A :=
  λ st, '(x, σ) ← f (rng_state st); Some (x, mkState σ (ixns st)).

(** [ixns[i] = row]; an index out of range raises [IndexError]. *)
Definition set_ixn (i : nat) (row : Ixn) : gen State unit :=
  λ st, if decide (i < length (ixns st))
        then Some (tt, mkState (rng_state st) (<[i := Some row]> (ixns st)))
        else None.

Definition assessment_idxes : list nat := seq 0 num_assessments.

(** The body of the inner loop. *)
Definition sample_ixn (p : Params) (student_idx : nat) (student_id : string) (t : nat)
    : gen State unit :=
  module_idx ← draw_or_raise (random_choice rng assessment_idxes);
  pass_likelihood ← item (pass_likelihood p student_idx module_idx);
  module_id ← item (assessment_ids !! module_idx);
  u ← draw (np_random_random rng);
  set_ixn (student_idx * num_ixns_per_student + t)
          (mkIxn student_id module_id Assessment
                 (Some (bool_decide (u < pass_likelihood)%R)) (t + 1)).

Definition sample_ixns (p : Params) : gen State unit :=
  for_each (imap (λ student_idx student_id, (student_idx, student_id)) student_ids)
    (λ '(student_idx, student_id),
       for_each (seq 0 num_ixns_per_student) (sample_ixn p student_idx student_id)).

(** The cells that draw the parameters and sample the interactions; the
    result is the frame [pd.DataFrame(ixns)] the history is built from. *)
Definition synthetic_history : option (Params * list Ixn) :=
  let '(p, σ) := draw_params seed in
  let empty := replicate (num_students * num_ixns_per_student) None in
  '(_, st) ← sample_ixns p (mkState σ empty);
  rows ← mapM (λ row, row) (ixns st);
  Some (p, rows).

End Generator.

(** The values the notebook sets. *)
Definition num_students : nat := 2000.
Definition num_assessments : nat := 3000.
Definition num_ixns_per_student : nat := 1000.
Definition USING_2PL : bool := false.

Definition notebook_history (rng : Rng) : option (Params * list Ixn) :=
  synthetic_history rng num_students num_assessments num_ixns_per_student USING_2PL.

(** The logit of the 1PL model as the specification words it, to compare
    with the generator's. *)
Definition onepl_logit_spec (proficiency difficulty : R) : R :=
  (proficiency - difficulty)%R.

End IRT.


(** ** The synthetic embedding and the interactions sampled from it *)

Module Embedding.
Import DataTools Rand.

Definition num_students : nat := 10000.
Definition num_assessment_interactions_per_step : nat := 100.
Definition grid_size : nat := 5.
Definition embedding_dimension : nat := 2.

Definition num_assessments : nat := grid_size ^ 2.
Definition num_lessons : nat := 2 * grid_size * (grid_size - 1).
Definition num_lesson_interactions_per_student : nat := 2 * (grid_size - 1) + 2.

(** [np.zeros((rows, cols))] *)
Definition zeros (rows cols : nat) : list (list R) := replicate rows (replicate cols 0%R).

(** The assessment embeddings [A], the lesson embeddings [L], the
    prerequisite embeddings [Q] and the two dictionaries. *)
Record Grid := mkGrid {
  A : list (list R);
  L : list (list R);
  Q : list (list R);
  lesson_idx_of_loc : gmap (nat * nat * nat * nat) nat;
  assessment_idx_of_loc : gmap (nat * nat) nat;
  lesson_count : nat
}.

Definition empty_grid : Grid :=
  mkGrid (zeros num_assessments embedding_dimension)
         (zeros num_lessons embedding_dimension)
         (zeros num_lessons embedding_dimension) ∅ ∅ 0.

(** The [if] blocks of the loop body: a lesson at [(i, j)] that moves by
    [(di, dj)]. *)
Definition add_lesson (i j di dj : nat) (g : Grid) : Grid :=
  mkGrid (A g)
         (<[lesson_count g := [INR di; INR dj]]> (L g))
         (<[lesson_count g := [INR i; INR j]]> (Q g))
         (<[(i, j, di, dj) := lesson_count g]> (lesson_idx_of_loc g))
         (assessment_idx_of_loc g)
         (lesson_count g + 1).

Definition grid_cell (g : Grid) (ij : nat * nat) : Grid :=
  let '(i, j) := ij in
  let g := mkGrid (<[grid_size * i + j := [INR i; INR j]]> (A g)) (L g) (Q g)
                  (lesson_idx_of_loc g)
                  (<[(i, j) := grid_size * i + j]> (assessment_idx_of_loc g))
                  (lesson_count g) in
  let g := if decide (j < grid_size - 1) then add_lesson i j 0 1 g else g in
  let g := if decide (i < grid_size - 1) then add_lesson i j 1 0 g else g in
  g.

(** [10 / (grid_size - 1)] *)
Definition cell_size : R := (10 / INR (grid_size - 1))%R.

(** [arr *= c] and [np.maximum(c, arr)] *)
Definition scale (c : R) (arr : list (list R)) : list (list R) :=
  (λ row : list R, (λ v, v * c)%R <$> row) <$> arr.
Definition maximum (c : R) (arr : list (list R)) : list (list R) :=
  (λ row : list R, Rmax c <$> row) <$> arr.

(** The cell "Construct a synthetic embedding". *)
Definition synthetic_embedding : Grid :=
  let g := foldl grid_cell empty_grid
             (i ← seq 0 grid_size; j ← seq 0 grid_size; [(i, j)]) in
  let A := scale cell_size (A g) in
  let Q := scale cell_size (Q g) in
  let L := scale cell_size (L g) in
  let A := maximum 1e-3 A in
  let Q := maximum 1e-3 Q in
  mkGrid A L Q (lesson_idx_of_loc g) (assessment_idx_of_loc g) (lesson_count g).

(** [1 / (1 + math.exp(-(np.dot(s, a) / np.linalg.norm(a) - np.linalg.norm(a))))]
    for [s = S[student_idx, :, t]] and [a = A[assessment_idx, :]]. *)
Definition pass_likelihood (s a : list R) : R :=
  (1 / (1 + exp (- (dot s a / norm a - norm a))))%R.

(** Modelled from the spec: the scoring function of [models.EmbeddingModel]
    ([lentil.models] is not part of the notebooks), with the bias terms
    taken as zero when bias is disabled. *)
Definition assessment_pass_probability
    (using_bias : bool) (skill_state assessment_embedding : list R)
    (student_bias assessment_bias : R) : R :=
  let logit :=
    (dot skill_state assessment_embedding / norm assessment_embedding
     - norm assessment_embedding
     + (if using_bias then student_bias else 0)
     + (if using_bias then assessment_bias else 0))%R in
  sigmoid logit.

Section Sampling.
Context (rng : Rng) (g : Grid).
Context (num_students num_assessment_interactions_per_step : nat).
(** The notebook reads [assessment_loc_of_idx] and [lesson_loc_of_idx] and
    does not define them. *)
Context (assessment_loc_of_idx : nat → list nat) (lesson_loc_of_idx : nat → list nat).

(** ['-'.join(str(z) for z in x)] *)
Definition id_of_loc (x : list nat) : string :=
  match x with
  | [] => ""
  | z :: x => foldl (λ acc z, acc +:+ "-" +:+ pretty z) (pretty z) x
  end.

(** The state of the sampling loop: the generator, the skill array [S]
    (student, timestep, skill), the list [data] and the variables [x], [y]
    and [t]. *)
Record State := mkState {
  rng_state : RngState;
  S : list (list (list R));
  data : list Ixn;
  x : nat;
  y : nat;
  t : nat
}.

Definition draw {X} (f : RngState → X * RngState) : gen State X :=
  λ st, let '(v, σ) := f (rng_state st) in
        Some (v, mkState σ (S st) (data st) (x st) (y st) (t st)).

(** [S[student_idx, :, t]]; an index out of range raises [IndexError]. *)
Definition S_get (S : list (list (list R))) (student_idx t : nat) : option (list R) :=
  S !! student_idx ≫= (.!! t).

(** [S[student_idx, :, t] = v] *)
Definition S_set (S : list (list (list R))) (student_idx t : nat) (v : list R)
    : option (list (list (list R))) :=
  row ← S !! student_idx;
  if decide (t < length row) then Some (<[student_idx := <[t := v]> row]> S) else None.

(** [data.append(row)] *)
Definition append (row : Ixn) : gen State unit :=
  modify (λ st, mkState (rng_state st) (S st) (data st ++ [row]) (x st) (y st) (t st)).

(** The assessment interaction at [t = 1]. *)
Definition first_assessment (student_idx : nat) (student_id : string) : gen State unit :=
  modify (λ st, mkState (rng_state st) (S st) (data st) 0 0 1) ≫= λ _,
  t ← gets t;
  assessment_idx ← item (assessment_idx_of_loc g !! (0, 0));
  let assessment_id := id_of_loc (assessment_loc_of_idx assessment_idx) in
  s ← gets (λ st, S_get (S st) student_idx t) ≫= item;
  a ← item (A g !! assessment_idx);
  let pass_likelihood := pass_likelihood s a in
  u ← draw (random_random rng);
  let outcome := bool_decide (u < pass_likelihood)%R in
  append (mkIxn student_id assessment_id Assessment (Some outcome) t).

(** One assessment interaction after a lesson, with its override. *)
Definition step_assessment (student_idx : nat) (student_id : string) : gen State unit :=
  t ← gets t;
  assessment_idx ← draw (random_randint rng 0 (num_assessments - 1));
  let assessment_id := id_of_loc (assessment_loc_of_idx assessment_idx) in
  s ← gets (λ st, S_get (S st) student_idx t) ≫= item;
  a ← item (A g !! assessment_idx);
  let pass_likelihood := pass_likelihood s a in
  u ← draw (random_random rng);
  let outcome := bool_decide (u < pass_likelihood)%R in
  a00 ← item (assessment_idx_of_loc g !! (0, 0));
  outcome ← (if decide (a00 = assessment_idx)
             then u ← draw (random_random rng); mret (bool_decide (u < 0.1)%R)
             else mret outcome);
  append (mkIxn student_id assessment_id Assessment (Some outcome) t).

(** The body of [for i, j in steps]. *)
Definition lesson_step (student_idx : nat) (student_id : string) (ij : nat * nat)
    : gen State unit :=
  let '(i, j) := ij in
  x ← gets x; y ← gets y; t ← gets t;
  lesson_idx ← item (lesson_idx_of_loc g !! (x, y, i, j));
  let lesson_id := id_of_loc (lesson_loc_of_idx lesson_idx) in
  append (mkIxn student_id lesson_id Lesson None t) ≫= λ _,
  s ← gets (λ st, S_get (S st) student_idx t) ≫= item;
  l ← item (L g !! lesson_idx);
  S' ← gets (λ st, S_set (S st) student_idx (t + 1) (zip_with Rplus s l)) ≫= item;
  modify (λ st, mkState (rng_state st) S' (data st) (x + i) (y + j) (t + 1)) ≫= λ _,
  for_each (seq 0 num_assessment_interactions_per_step)
           (λ _, step_assessment student_idx student_id).

(** The body of [for student_idx in range(num_students)]. *)
Definition sample_student (student_idx : nat) : gen State unit :=
  let student_id := "S" +:+ pretty student_idx in
  steps ← draw (random_shuffle rng
                  (replicate (grid_size - 1) (0, 1) ++ replicate (grid_size - 1) (1, 0)));
  first_assessment student_idx student_id ≫= λ _,
  for_each steps (lesson_step student_idx student_id).

(** The cell "Sample interactions from the synthetic embedding": the final
    array [S] and the list [data]. *)
Definition sample_interactions : option (list (list (list R)) * list Ixn) :=
  let S0 := replicate num_students
              (zeros num_lesson_interactions_per_student embedding_dimension) in
  '(_, st) ← for_each (seq 0 num_students) sample_student
                      (mkState seed S0 [] 0 0 0);
  Some (S st, data st).

End Sampling.

(** The notebook's run. *)
Definition notebook_interactions (rng : Rng)
    (assessment_loc_of_idx lesson_loc_of_idx : nat → list nat)
    : option (list (list (list R)) * list Ixn) :=
  sample_interactions rng synthetic_embedding num_students
    num_assessment_interactions_per_step assessment_loc_of_idx lesson_loc_of_idx.

End Embedding.


(** ** The exploration cells: pass rates and graphs *)

Module Explore.
Import DataTools.

(** [df.groupby(column)]: the groups in ascending order of their key, each
    with the rows of the frame that carry the key, in the frame's order. *)
Definition groupby (column : Interaction → Z) (df : list Interaction)
    : list (Z * list Interaction) :=
  (λ key, (key, filter (λ r, column r = key) df))
    <$> merge_sort Z.le (elements (list_to_set (column <$> df) : gset Z)).

(** [df[df['module_type'] == ty]] *)
Definition of_type (ty : ModuleType) (df : list Interaction) : list Interaction :=
  filter (λ r, module_type r = ty) df.

(** [group['outcome'].value_counts()]: how often each value other than
    [None] occurs; a value that does not occur is no key of the result. *)
Definition value_counts (outcomes : list (option bool)) : gmap bool nat :=
  foldl (λ vc o, match o with
                 | Some v => <[v := S (default 0 (vc !! v))]> vc
                 | None => vc
                 end) ∅ outcomes.

Definition get_pass_rates (grouped : list (Z * list Interaction)) : gmap Z Q :=
  foldl (λ pass_rates '(name, group),
           let vc := value_counts (outcome <$> group) in
           match vc !! true with
           | None => <[name := 0%Q]> pass_rates
           | Some passed =>
               <[name := (inject_Z (Z.of_nat passed)
                          / inject_Z (Z.of_nat (length group)))%Q]> pass_rates
           end)
        ∅ grouped.

(** The two histograms of pass rates: per student and per assessment. *)
Definition student_pass_rates (df : list Interaction) : gmap Z Q :=
  get_pass_rates (groupby student_id (of_type Assessment df)).
Definition assessment_pass_rates (df : list Interaction) : gmap Z Q :=
  get_pass_rates (groupby module_id (of_type Assessment df)).

(** What the graph functions hand to [pgv.AGraph(directed=True)]: the nodes
    of the [add_node] calls, with the label of the last call where one is
    given, and the edges of the [add_edge] calls, with their weight where
    one is given. *)
Record FlowGraph := mkFlowGraph {
  flow_nodes : gset Z;
  flow_edges : gmap (Z * Z) nat
}.

(** [zip(path[:-1], path[1:])] *)
Definition transitions (path : list Z) : list (Z * Z) :=
  zip (take (length path - 1) path) (drop 1 path).

(** [if source_node != target_node: E[(source_node, target_node)] |= {student_id}]
    on a [defaultdict(set)]. *)
Definition add_transition (student : Z) (E : gmap (Z * Z) (gset Z)) (st : Z * Z)
    : gmap (Z * Z) (gset Z) :=
  if decide (st.1 ≠ st.2) then <[st := (E !!! st) ∪ {[student]}]> E else E.

Definition transition_students (interaction_logs : list Interaction)
    : gmap (Z * Z) (gset Z) :=
  foldl (λ E '(student, group),
           foldl (add_transition student) E (transitions (module_id <$> group)))
        ∅ (groupby student_id interaction_logs).

Definition make_flow_graph (interaction_logs : list Interaction) : FlowGraph :=
  mkFlowGraph (list_to_set (module_id <$> interaction_logs))
              (size <$> transition_students interaction_logs).

Inductive Label := module_label | student_label.

Record ConnGraph := mkConnGraph {
  conn_nodes : gmap Z Label;
  conn_edges : gset (Z * Z)
}.

Definition make_conn_graph (interaction_logs : list Interaction) : ConnGraph :=
  let G := foldl (λ G module, mkConnGraph (<[module := module_label]> (conn_nodes G))
                                          (conn_edges G))
                 (mkConnGraph ∅ ∅)
                 (remove_dups (module_id <$> interaction_logs)) in
  foldl (λ G '(student, group),
           let G := mkConnGraph (<[student := student_label]> (conn_nodes G))
                                (conn_edges G) in
           foldl (λ G module, mkConnGraph (conn_nodes G)
                                          ({[(student, module)]} ∪ conn_edges G))
                 G (elements (list_to_set (module_id <$> group) : gset Z)))
        G (groupby student_id interaction_logs).

End Explore.


(** ** Identifiers and indexes *)

Module Ids.

(** [x[1:]] *)
Definition drop_first (x : string) : string :=
  match x with
  | "" => ""
  | String _ x => x
  end.

(** [int(s)] for a string of decimal digits, the only strings the notebooks
    hand to it; a string that is empty or holds another character raises
    [ValueError] here ([None]).  The signs, blanks and underscores Python
    also reads are left out. *)
Fixpoint int_digits (acc : N) (s : string) : option N :=
  match s with
  | "" => Some acc
  | String c s => d ← Ascii.is_nat c; int_digits (10 * acc + N.of_nat d) s
  end.

Definition int (s : string) : option N :=
  if decide (s = "") then None else int_digits 0 s.

(** [history.idx_of_student_id = lambda x: int(x[1:])] and
    [history.idx_of_assessment_id = lambda x: int(x[1:])]. *)
Definition idx_of_student_id (x : string) : option nat := N.to_nat <$> int (drop_first x).
Definition idx_of_assessment_id (x : string) : option nat := N.to_nat <$> int (drop_first x).

End Ids.


(** * Properties *)

(** ** Sorting a frame *)

Section SortFacts.
Import DataTools.
Context {A : Type} (key : A → option Z).

Definition key_rel (a b : A) : Prop := key_le (key a) (key b).

Lemma key_le_total (a b : option Z) : key_le a b = false → key_le b a = true.
Proof.
  destruct a as [x|], b as [y|]; simpl; try done.
  rewrite bool_decide_eq_false, bool_decide_eq_true. lia.
Qed.

Lemma key_le_refl (a : option Z) : key_le a a = true.
Proof. destruct a; simpl; [|done]. by rewrite bool_decide_eq_true. Qed.

Lemma key_le_trans (a b c : option Z) :
  key_le a b = true → key_le b c = true → key_le a c = true.
Proof.
  destruct a as [x|], b as [y|], c as [z|]; simpl; try done.
  rewrite !bool_decide_eq_true. lia.
Qed.

#[local] Instance key_rel_total : Total key_rel.
Proof.
  intros a b. unfold key_rel.
  destruct (key_le (key a) (key b)) eqn:E; [by left|right].
  by rewrite (key_le_total _ _ E).
Qed.

#[local] Instance key_rel_trans : Transitive key_rel.
Proof.
  intros a b c. unfold key_rel. rewrite !Is_true_true. apply key_le_trans.
Qed.

Lemma sort_values_perm (l : list A) : sort_values key l ≡ₚ l.
Proof. apply merge_sort_Permutation. Qed.

Lemma sort_values_sorted (l : list A) : StronglySorted key_rel (sort_values key l).
Proof. apply (StronglySorted_merge_sort key_rel). Qed.

Lemma elem_of_sort_values (x : A) (l : list A) : x ∈ sort_values key l ↔ x ∈ l.
Proof. by rewrite sort_values_perm. Qed.

End SortFacts.

Section ParserFacts.
Import DataTools Parsers.

Definition count_student (s : Z) (students : list Z) : nat :=
  length (filter (λ s', s' = s) students).

Lemma length_count_timesteps m students :
  length (count_timesteps m students) = length students.
Proof.
  revert m. induction students as [|sid rest IH]; intros m; simpl; [done|].
  by rewrite IH.
Qed.

Lemma count_timesteps_lookup m students i s :
  students !! i = Some s →
  count_timesteps m students !! i
  = Some (m !!! s + count_student s (take (S i) students)).
Proof.
  unfold count_student.
  revert m i. induction students as [|sid rest IH]; intros m i Hi; [done|].
  destruct i as [|i]; simpl in *.
  - simplify_eq. rewrite lookup_total_insert_eq, take_0.
    rewrite filter_cons_True by done. simpl. f_equal. lia.
  - rewrite (IH _ _ Hi). f_equal.
    destruct (decide (sid = s)) as [->|Hne].
    + rewrite lookup_total_insert_eq, filter_cons_True by done. simpl. lia.
    + rewrite lookup_total_insert_ne, filter_cons_False by done. done.
Qed.

Lemma count_timesteps_range m students s t :
  (∃ i, students !! i = Some s ∧ count_timesteps m students !! i = Some t)
  ↔ m !!! s < t ≤ m !!! s + count_student s students.
Proof.
  unfold count_student.
  revert m. induction students as [|sid rest IH]; intros m.
  - simpl. split; [by intros (i & ? & ?)|lia].
  - destruct (decide (sid = s)) as [->|Hne].
    + rewrite filter_cons_True by done. simpl. split.
      * intros ([|i] & Hs & Ht); simpl in *.
        -- simplify_eq. rewrite lookup_total_insert_eq. lia.
        -- assert (H : ∃ i, rest !! i = Some s ∧
             count_timesteps (<[s:=S (m !!! s)]> m) rest !! i = Some t) by eauto.
           apply IH in H. rewrite lookup_total_insert_eq in H. lia.
      * intros Ht. destruct (decide (t = S (m !!! s))) as [->|Hne].
        -- exists 0. simpl. by rewrite lookup_total_insert_eq.
        -- destruct (proj2 (IH (<[s:=S (m !!! s)]> m))) as (i & ? & ?).
           { rewrite lookup_total_insert_eq. lia. }
           by exists (S i).
    + rewrite filter_cons_False by done. split.
      * intros ([|i] & Hs & Ht); simpl in *; [congruence|].
        assert (H : ∃ i, rest !! i = Some s ∧
          count_timesteps (<[sid:=S (m !!! sid)]> m) rest !! i = Some t) by eauto.
        apply IH in H. by rewrite lookup_total_insert_ne in H.
      * intros Ht. destruct (proj2 (IH (<[sid:=S (m !!! sid)]> m))) as (i & ? & ?).
        { by rewrite lookup_total_insert_ne. }
        by exists (S i).
Qed.

(** The part the three parsers share, after the columns are selected. *)
Definition build_history (unit : Q → Q) (rows : list Row) : InteractionHistory :=
  let data := assessment_frame unit rows in
  new_InteractionHistory (data ++ lesson_frame data) true false.

Definition binary (o : option Q) : Prop := ∃ x, o = Some x ∧ (x == 1 ∨ x == 0)%Q.
Definition positive (d : option Q) : Prop := ∃ x, d = Some x ∧ (0 < x)%Q.

Lemma binary_outcome_spec (r : Row) : binary_outcome r ↔ binary (row_outcome r).
Proof.
  unfold binary_outcome, binary. split.
  - destruct (row_outcome r) as [x|]; [|done].
    rewrite orb_True, !Is_true_true, !Qeq_bool_iff. eauto.
  - intros (x & -> & H). by rewrite orb_True, !Is_true_true, !Qeq_bool_iff.
Qed.

Lemma positive_duration_spec (r : Row) :
  positive_duration r ↔ positive (row_duration r).
Proof.
  unfold positive_duration, positive. split.
  - destruct (row_duration r) as [d|]; [|done].
    rewrite negb_True, Is_true_true, Qle_bool_iff. intros H.
    exists d. split; [done|]. by apply Qnot_le_lt.
  - intros (x & -> & H). rewrite negb_True, Is_true_true, Qle_bool_iff.
    by apply Qlt_not_le.
Qed.

Lemma keep_spec (r : Row) :
  keep r ↔ binary (row_outcome r) ∧ positive (row_duration r).
Proof.
  unfold keep. by rewrite andb_True, binary_outcome_spec, positive_duration_spec.
Qed.

Lemma build_history_perm unit rows :
  data (build_history unit rows)
  ≡ₚ assessment_frame unit rows ++ lesson_frame (assessment_frame unit rows).
Proof. unfold build_history, new_InteractionHistory. simpl. apply sort_values_perm. Qed.

Lemma elem_of_assessment_frame unit rows r :
  r ∈ assessment_frame unit rows ↔
  ∃ i row t, filter (λ r, keep r) rows !! i = Some row
    ∧ count_timesteps ∅ (row_student_id <$> filter (λ r, keep r) rows) !! i = Some t
    ∧ r = assessment_row unit row t.
Proof.
  unfold assessment_frame. rewrite elem_of_lookup_zip_with. split.
  - intros (i & row & t & -> & ? & ?). by exists i, row, t.
  - intros (i & row & t & ? & ? & ->). by exists i, row, t.
Qed.

Lemma assessment_frame_type unit rows r :
  r ∈ assessment_frame unit rows → module_type r = Assessment.
Proof. rewrite elem_of_assessment_frame. by intros (i & row & t & _ & _ & ->). Qed.

Lemma assessment_frame_source unit rows r :
  r ∈ assessment_frame unit rows →
  ∃ row, row ∈ rows ∧ keep row ∧ r = assessment_row unit row (timestep r).
Proof.
  rewrite elem_of_assessment_frame. intros (i & row & t & Hrow & _ & ->).
  apply list_elem_of_lookup_2, list_elem_of_filter in Hrow as [? ?]. eauto.
Qed.

Lemma length_assessment_frame unit rows :
  length (assessment_frame unit rows) = length (filter (λ r, keep r) rows).
Proof.
  unfold assessment_frame.
  rewrite length_zip_with, length_count_timesteps, length_fmap. lia.
Qed.

Lemma elem_of_build_history unit rows r :
  r ∈ data (build_history unit rows) ↔
  ∃ r', r' ∈ assessment_frame unit rows ∧ (r = r' ∨ r = set_module_type Lesson r').
Proof.
  rewrite build_history_perm, elem_of_app. unfold lesson_frame.
  rewrite list_elem_of_fmap. split.
  - intros [?|(r' & -> & ?)]; eauto.
  - intros (r' & ? & [->| ->]); eauto.
Qed.

Lemma build_history_source unit rows r :
  r ∈ data (build_history unit rows) →
  ∃ row, row ∈ rows ∧ keep row ∧ row_index row = index r
    ∧ row_student_id row = student_id r ∧ row_module_id row = module_id r.
Proof.
  rewrite elem_of_build_history. intros (r' & Hr' & Hr).
  apply assessment_frame_source in Hr' as (row & ? & ? & Hr').
  exists row. destruct Hr as [->| ->]; rewrite Hr'; done.
Qed.

Lemma filter_assessment_frame unit rows :
  filter (λ r, module_type r = Assessment) (assessment_frame unit rows)
  = assessment_frame unit rows.
Proof.
  generalize (assessment_frame_type unit rows).
  induction (assessment_frame unit rows) as [|r l IH]; intros H; [done|].
  rewrite filter_cons_True by (apply H; left). f_equal. apply IH.
  intros r' ?. apply H. by right.
Qed.

Lemma filter_type_fmap_set ty ty' (l : list Interaction) :
  filter (λ r, module_type r = ty) (set_module_type ty' <$> l)
  = if decide (ty' = ty) then set_module_type ty' <$> l else [].
Proof.
  induction l as [|r l IH]; [by case_decide|].
  rewrite fmap_cons. case_decide.
  - rewrite filter_cons_True by done. by rewrite IH.
  - by rewrite filter_cons_False.
Qed.

Lemma filter_lesson_assessment_frame unit rows :
  filter (λ r, module_type r = Lesson) (assessment_frame unit rows) = [].
Proof.
  generalize (assessment_frame_type unit rows).
  induction (assessment_frame unit rows) as [|r l IH]; intros H; [done|].
  rewrite filter_cons_False; [apply IH; intros r' ?; apply H; by right|].
  rewrite (H r) by left. done.
Qed.

Lemma build_history_assessments unit rows :
  filter (λ r, module_type r = Assessment) (data (build_history unit rows))
  ≡ₚ assessment_frame unit rows.
Proof.
  rewrite build_history_perm, filter_app, filter_assessment_frame.
  unfold lesson_frame. rewrite filter_type_fmap_set. simpl. by rewrite app_nil_r.
Qed.

Lemma build_history_lessons unit rows :
  filter (λ r, module_type r = Lesson) (data (build_history unit rows))
  ≡ₚ set_module_type Lesson <$> assessment_frame unit rows.
Proof.
  rewrite build_history_perm, filter_app, filter_lesson_assessment_frame.
  unfold lesson_frame. by rewrite filter_type_fmap_set.
Qed.

Lemma length_filter_fmap {A B} (f : A → B) (P : B → Prop) `{!∀ x, Decision (P x)}
    (l : list A) :
  length (filter P (f <$> l)) = length (filter (λ x, P (f x)) l).
Proof.
  induction l as [|x l IH]; [done|]. rewrite fmap_cons.
  destruct (decide (P (f x))).
  - rewrite !filter_cons_True by done. simpl. by rewrite IH.
  - by rewrite !filter_cons_False.
Qed.

Lemma filter_fmap_comm {A B} (f : A → B) (P : B → Prop) `{!∀ x, Decision (P x)}
    (l : list A) :
  filter P (f <$> l) = f <$> filter (λ x, P (f x)) l.
Proof.
  induction l as [|x l IH]; [done|]. rewrite fmap_cons.
  destruct (decide (P (f x))).
  - rewrite !filter_cons_True by done. by rewrite fmap_cons, IH.
  - by rewrite !filter_cons_False.
Qed.

Lemma count_student_rows (s : Z) (rows : list Row) :
  count_student s (row_student_id <$> filter (λ r, keep r) rows)
  = length (filter (λ r, row_student_id r = s ∧ keep r) rows).
Proof.
  unfold count_student. by rewrite length_filter_fmap, list_filter_filter.
Qed.

Lemma build_history_timesteps unit rows s t :
  (∃ r, r ∈ data (build_history unit rows) ∧ student_id r = s ∧ timestep r = t)
  ↔ 1 ≤ t ≤ length (filter (λ r, row_student_id r = s ∧ keep r) rows).
Proof.
  rewrite <- count_student_rows.
  pose proof (count_timesteps_range ∅ (row_student_id <$> filter (λ r, keep r) rows) s t) as H.
  rewrite lookup_total_empty in H. simpl in H.
  change (1 ≤ t) with (0 < t). rewrite <- H. clear H. split.
  - intros (r & Hr & <- & <-). apply elem_of_build_history in Hr as (r' & Hr' & Hr).
    apply elem_of_assessment_frame in Hr' as (i & row & t & Hrow & Ht & ->).
    exists i. rewrite list_lookup_fmap, Hrow. by destruct Hr as [->| ->].
  - intros (i & Hs & Ht). rewrite list_lookup_fmap in Hs.
    destruct (filter (λ r, keep r) rows !! i) as [row|] eqn:Hrow; [|done].
    simpl in Hs. simplify_eq. exists (assessment_row unit row t).
    split; [|done]. apply elem_of_build_history.
    exists (assessment_row unit row t). split; [|by left].
    apply elem_of_assessment_frame. by exists i, row, t.
Qed.

Lemma StronglySorted_filter {A} (R : relation A) (P : A → Prop)
    `{!∀ x, Decision (P x)} (l : list A) :
  StronglySorted R l → StronglySorted R (filter P l).
Proof.
  induction 1 as [|x l Hl IH Hx]; [constructor|].
  destruct (decide (P x)).
  - rewrite filter_cons_True by done. constructor; [done|].
    rewrite Forall_forall in Hx |- *. intros y [_ Hy]%list_elem_of_filter.
    by apply Hx.
  - by rewrite filter_cons_False.
Qed.

Lemma StronglySorted_lookup {A} (R : relation A) (l : list A) i j x y :
  StronglySorted R l → l !! i = Some x → l !! j = Some y → i < j → R x y.
Proof.
  intros Hl. revert i j. induction Hl as [|z l Hl IH Hz]; intros i j Hi Hj Hij; [done|].
  destruct j as [|j]; [lia|]. destruct i as [|i]; simpl in *.
  - simplify_eq. rewrite Forall_forall in Hz. apply Hz.
    by eapply list_elem_of_lookup_2.
  - apply (IH i j); [done..|lia].
Qed.

Lemma NoDup_fmap_eq {A B} (f : A → B) (l : list A) x y :
  NoDup (f <$> l) → x ∈ l → y ∈ l → f x = f y → x = y.
Proof.
  induction l as [|z l IH]; [by intros _ ?%elem_of_nil|].
  rewrite fmap_cons, NoDup_cons, !elem_of_cons. intros [Hz Hl] Hx Hy Hf.
  destruct Hx as [->|Hx], Hy as [->|Hy]; [done| | |by apply IH].
  - destruct Hz. rewrite Hf. by apply list_elem_of_fmap_2.
  - destruct Hz. rewrite <- Hf. by apply list_elem_of_fmap_2.
Qed.

Lemma count_student_take_mono s (students : list Z) i j :
  i < j → students !! j = Some s →
  count_student s (take (S i) students) < count_student s (take (S j) students).
Proof.
  intros Hij Hj. unfold count_student.
  rewrite (take_S_r students j s) by done.
  replace j with (S i + (j - S i)) at 1 by lia.
  rewrite <- take_take_drop, !filter_app, !length_app.
  rewrite filter_cons_True by done. simpl. lia.
Qed.

Section Chronological.
Context {A : Type} (key : A → option Z) (cols : A → Row) (unit : Q → Q).

Lemma kept_rows (l : list A) :
  filter (λ r, keep r) (cols <$> sort_values key l)
  = cols <$> filter (λ a, keep (cols a)) (sort_values key l).
Proof. exact (filter_fmap_comm cols (λ r, keep r) (sort_values key l)). Qed.

Lemma build_history_lookup (l : list A) r :
  r ∈ data (build_history unit (cols <$> sort_values key l)) →
  ∃ i a, filter (λ a, keep (cols a)) (sort_values key l) !! i = Some a
    ∧ row_index (cols a) = index r
    ∧ row_student_id (cols a) = student_id r
    ∧ timestep r
      = count_student (student_id r)
          (take (S i) (row_student_id <$>
             (cols <$> filter (λ a, keep (cols a)) (sort_values key l)))).
Proof.
  rewrite elem_of_build_history. intros (r' & Hr' & Hr).
  apply elem_of_assessment_frame in Hr' as (i & row & t & Hrow & Ht & ->).
  rewrite kept_rows in Hrow, Ht. rewrite list_lookup_fmap in Hrow.
  destruct (filter _ (sort_values key l) !! i) as [a|] eqn:Ha; [|done].
  simpl in Hrow. simplify_eq.
  erewrite count_timesteps_lookup in Ht
    by (rewrite !list_lookup_fmap, Ha; done).
  rewrite lookup_total_empty in Ht. simpl in Ht. simplify_eq.
  exists i, a. by destruct Hr as [->| ->].
Qed.

Lemma build_history_chronological (l : list A) raw1 raw2 r1 r2 :
  NoDup ((λ a, row_index (cols a)) <$> l) →
  raw1 ∈ l → raw2 ∈ l →
  r1 ∈ data (build_history unit (cols <$> sort_values key l)) →
  r2 ∈ data (build_history unit (cols <$> sort_values key l)) →
  row_index (cols raw1) = index r1 → row_index (cols raw2) = index r2 →
  student_id r1 = student_id r2 →
  key_le (key raw2) (key raw1) = false →
  timestep r1 < timestep r2.
Proof.
  intros Hnd Hraw1 Hraw2 Hr1 Hr2 Hi1 Hi2 Hs Hkey.
  apply build_history_lookup in Hr1 as (i1 & a1 & Ha1 & Hx1 & Hs1 & ->).
  apply build_history_lookup in Hr2 as (i2 & a2 & Ha2 & Hx2 & Hs2 & ->).
  assert (Hin : ∀ i a, filter (λ a, keep (cols a)) (sort_values key l) !! i = Some a
                → a ∈ l).
  { intros i a Ha. apply list_elem_of_lookup_2, list_elem_of_filter in Ha as [_ Ha].
    by apply elem_of_sort_values in Ha. }
  assert (raw1 = a1) as E1.
  { apply (NoDup_fmap_eq (λ a, row_index (cols a)) l); eauto. congruence. }
  assert (raw2 = a2) as E2.
  { apply (NoDup_fmap_eq (λ a, row_index (cols a)) l); eauto. congruence. }
  subst raw1 raw2.
  pose proof (StronglySorted_filter _ (λ a, keep (cols a)) _
                (sort_values_sorted key l)) as Hsorted.
  assert (i1 < i2) as Hlt.
  { destruct (decide (i1 < i2)) as [|Hge]; [done|]. exfalso.
    destruct (decide (i1 = i2)) as [->|Hne].
    - simplify_eq. by rewrite key_le_refl in Hkey.
    - assert (key_rel key a2 a1) as Hle.
      { apply (StronglySorted_lookup _ _ i2 i1 _ _ Hsorted); [done..|lia]. }
      unfold key_rel in Hle. by rewrite Hkey in Hle. }
  rewrite Hs. apply count_student_take_mono; [done|].
  by rewrite !list_lookup_fmap, Ha2, <- Hs2.
Qed.

End Chronological.
End ParserFacts.

(** ** Re-indexed timesteps and the filter *)

Section RankFacts.
Import DataTools.
Implicit Types (X : gset nat) (t : nat).

Lemma rank_le X t : rank X t ≤ size X.
Proof. apply subseteq_size. intros x [_ ?]%elem_of_filter. done. Qed.

Lemma rank_mono X t1 t2 : t1 ≤ t2 → rank X t1 ≤ rank X t2.
Proof.
  intros Ht. apply subseteq_size. intros x [? ?]%elem_of_filter.
  apply elem_of_filter. split; [lia|done].
Qed.

Lemma rank_lt X t1 t2 : t1 < t2 → t2 ∈ X → rank X t1 < rank X t2.
Proof.
  intros Ht Hin. apply subset_size. split.
  - intros x [? ?]%elem_of_filter. apply elem_of_filter. split; [lia|done].
  - intros Hsub. assert (t2 ∈ filter (λ t', t' ≤ t1) X) as [? _]%elem_of_filter; [|lia].
    apply Hsub, elem_of_filter. split; [lia|done].
Qed.

Lemma rank_pos X t : t ∈ X → 1 ≤ rank X t.
Proof.
  intros Hin. unfold rank.
  rewrite <- (size_singleton (C:=gset nat) t). apply subseteq_size.
  intros x ->%elem_of_singleton. apply elem_of_filter. split; [lia|done].
Qed.

Lemma rank_inj X t1 t2 : t1 ∈ X → t2 ∈ X → rank X t1 = rank X t2 → t1 = t2.
Proof.
  intros H1 H2 Heq. destruct (Nat.lt_total t1 t2) as [Hlt|[?|Hlt]]; [|done|].
  - pose proof (rank_lt X _ _ Hlt H2). lia.
  - pose proof (rank_lt X _ _ Hlt H1). lia.
Qed.

Lemma size_set_map_inj (f : nat → nat) X :
  (∀ x y, x ∈ X → y ∈ X → f x = f y → x = y) →
  size (set_map f X : gset nat) = size X.
Proof.
  induction X as [|x X Hx IH] using set_ind_L; intros Hinj.
  - by rewrite set_map_empty, !size_empty.
  - rewrite set_map_union_L, set_map_singleton_L.
    rewrite !size_union, !size_singleton.
    + rewrite IH; [done|]. intros y z ? ?. apply Hinj; set_solver.
    + set_solver.
    + intros y ->%elem_of_singleton (z & Hf & Hz)%elem_of_map.
      apply Hinj in Hf; set_solver.
Qed.

Lemma rank_image X : set_map (rank X) X = (set_seq 1 (size X) : gset nat).
Proof.
  apply set_subseteq_size_eq.
  - intros j (t & -> & Ht)%elem_of_map. apply elem_of_set_seq.
    pose proof (rank_pos X t Ht). pose proof (rank_le X t). lia.
  - rewrite size_set_seq, size_set_map_inj; [done|]. apply rank_inj.
Qed.

Lemma rank_set_seq k j : j ≤ k → rank (set_seq 1 k) j = j.
Proof.
  intros Hj. unfold rank.
  replace (filter (λ t', t' ≤ j) (set_seq 1 k : gset nat))
    with (set_seq 1 j : gset nat); [apply size_set_seq|].
  apply set_eq. intros x. rewrite elem_of_filter, !elem_of_set_seq. lia.
Qed.

Lemma elem_of_student_timesteps (l : list Interaction) s t :
  t ∈ student_timesteps l s ↔ ∃ r, r ∈ l ∧ student_id r = s ∧ timestep r = t.
Proof.
  unfold student_timesteps. rewrite elem_of_list_to_set, list_elem_of_fmap. split.
  - intros (r & -> & [? ?]%list_elem_of_filter). eauto.
  - intros (r & ? & ? & <-). exists r. split; [done|]. by apply list_elem_of_filter.
Qed.

Lemma elem_of_reindex (l : list Interaction) r' :
  r' ∈ reindex l ↔
  ∃ r, r ∈ l ∧ r' = set_timestep (rank (student_timesteps l (student_id r)) (timestep r)) r.
Proof. unfold reindex. rewrite list_elem_of_fmap. split; intros (r & ? & ?); eauto. Qed.

Lemma student_timesteps_reindex (l : list Interaction) s :
  student_timesteps (reindex l) s = set_seq 1 (size (student_timesteps l s)).
Proof.
  rewrite <- rank_image. apply set_eq. intros j.
  rewrite elem_of_student_timesteps, elem_of_map. split.
  - intros (r' & (r & Hr & ->)%elem_of_reindex & <- & <-). simpl.
    exists (timestep r). split; [done|]. apply elem_of_student_timesteps. eauto.
  - intros (t & -> & (r & Hr & <- & <-)%elem_of_student_timesteps).
    eexists. split; [apply elem_of_reindex; eauto|]. done.
Qed.

Lemma reindex_idemp (l : list Interaction) : reindex (reindex l) = reindex l.
Proof.
  unfold reindex at 1. etrans; [|apply (list_fmap_id (reindex l))].
  apply Forall_fmap_ext, Forall_forall. intros r' Hr'.
  rewrite student_timesteps_reindex.
  apply elem_of_reindex in Hr' as (r & Hr & ->). simpl.
  rewrite rank_set_seq by apply rank_le. done.
Qed.

Lemma filter_length_eq {A} (P : A → Prop) `{!∀ x, Decision (P x)} (l : list A) :
  length (filter P l) = length l → filter P l = l.
Proof.
  induction l as [|x l IH]; [done|]. destruct (decide (P x)).
  - rewrite filter_cons_True by done. simpl. intros ?. f_equal. apply IH. lia.
  - rewrite filter_cons_False by done. simpl. intros Hl.
    pose proof (length_filter P l). lia.
Qed.

End RankFacts.

Section FilterFacts.
Import DataTools Filter.

Lemma elem_of_kept_students (df : list Interaction) min max s :
  s ∈ kept_students df min max ↔
  (∃ r, r ∈ df ∧ student_id r = s ∧ module_type r = Assessment
        ∧ (min < Z.of_nat (timestep r))%Z)
  ∧ (∀ r, r ∈ df → student_id r = s → (Z.of_nat (timestep r) < max)%Z).
Proof.
  unfold kept_students.
  rewrite elem_of_difference, !elem_of_list_to_set, !list_elem_of_fmap.
  split.
  - intros [(r & -> & [[? ?] ?]%list_elem_of_filter) Hno]. split.
    + exists r. done.
    + intros r' Hr' Hs.
      destruct (decide (Z.of_nat (timestep r') < max)%Z); [done|].
      destruct Hno. exists r'. split; [done|]. apply list_elem_of_filter.
      split; [lia|done].
  - intros [(r & ? & <- & ? & ?) Hall]. split.
    + exists r. split; [done|]. by apply list_elem_of_filter.
    + intros (r' & Hs & [? Hr']%list_elem_of_filter).
      specialize (Hall r' Hr'). symmetry in Hs. specialize (Hall Hs). lia.
Qed.

Lemma elem_of_kept_modules (df : list Interaction) min m :
  m ∈ kept_modules df min ↔
  (∃ r, r ∈ df ∧ module_id r = m) ∧ (min < Z.of_nat (num_module_ixns df m))%Z.
Proof.
  unfold kept_modules, groupby_module_id, num_module_ixns.
  rewrite elem_of_list_to_set, list_elem_of_fmap. split.
  - intros ([m' g] & -> & [Hlen Hg]%list_elem_of_filter). simpl in *.
    apply list_elem_of_fmap in Hg as (m & [= -> ->] & Hm).
    apply elem_of_elements, elem_of_list_to_set, list_elem_of_fmap in Hm
      as (r & -> & ?).
    split; [eauto|done].
  - intros [(r & Hr & <-) Hlen].
    exists (module_id r, filter (λ r', module_id r' = module_id r) df).
    split; [done|]. apply list_elem_of_filter. split; [done|].
    apply list_elem_of_fmap. exists (module_id r). split; [done|].
    apply elem_of_elements, elem_of_list_to_set, list_elem_of_fmap. eauto.
Qed.


Lemma filter_history_data h min max :
  data (filter_history h min max) = reindex (selected_rows h min max).
Proof. done. Qed.

Lemma filter_history_fixed g min max :
  let h := filter_history g min max in
  length (data (filter_history h min max)) = length (data h) →
  filter_history h min max = h.
Proof.
  intros h Hlen.
  assert (selected_rows h min max = data h) as Hsel.
  { rewrite filter_history_data in Hlen. unfold reindex in Hlen at 1.
    rewrite length_fmap in Hlen. by apply filter_length_eq in Hlen. }
  unfold filter_history at 1, new_InteractionHistory. rewrite Hsel.
  unfold h. rewrite filter_history_data, reindex_idemp. done.
Qed.

End FilterFacts.

(** ** Reasoning about generators *)

Section GenLogic.
Import Rand.
Context {St : Type}.

(** Total correctness: from a state in [P] the computation raises nothing
    and ends in a state in [Q]. *)
Definition triple {A} (P : St → Prop) (c : gen St A) (Q : A → St → Prop) : Prop :=
  ∀ σ, P σ → ∃ a σ', c σ = Some (a, σ') ∧ Q a σ'.

Lemma triple_ret {A} (x : A) (Q : A → St → Prop) :
  triple (Q x) (mret x) Q.
Proof. intros σ H. by exists x, σ. Qed.

Lemma triple_bind {A B} P (c : gen St A) R (f : A → gen St B) Q :
  triple P c R → (∀ a, triple (R a) (f a) Q) → triple P (c ≫= f) Q.
Proof.
  intros Hc Hf σ HP. destruct (Hc σ HP) as (a & σ' & Hrun & HR).
  destruct (Hf a σ' HR) as (b & σ'' & Hrun' & HQ).
  exists b, σ''. split; [|done].
  unfold mbind, gen_bind. by rewrite Hrun.
Qed.

Lemma triple_weaken {A} (P P' : St → Prop) (c : gen St A) (Q Q' : A → St → Prop) :
  (∀ σ, P' σ → P σ) → (∀ a σ, Q a σ → Q' a σ) → triple P c Q → triple P' c Q'.
Proof.
  intros HP HQ Hc σ H. destruct (Hc σ (HP σ H)) as (a & σ' & ? & ?).
  exists a, σ'. eauto.
Qed.

Lemma triple_item {A} (o : option A) (x : A) (P : St → Prop) :
  o = Some x → triple P (item o) (λ a σ, a = x ∧ P σ).
Proof. intros -> σ H. by exists x, σ. Qed.

Lemma for_each_triple_from {A} (I : nat → St → Prop) (l : list A) body k :
  (∀ i x, l !! i = Some x → triple (I (k + i)) (body x) (λ _, I (k + S i))) →
  triple (I k) (for_each l body) (λ _, I (k + length l)).
Proof.
  revert k. induction l as [|x l IH]; intros k Hbody; simpl.
  - rewrite Nat.add_0_r. apply (triple_ret tt (λ _, I k)).
  - apply (triple_bind _ _ (λ _, I (k + 1))).
    + pose proof (Hbody 0 x eq_refl) as Hb.
      by replace (k + 0) with k in Hb by lia.
    + intros _. replace (k + S (length l)) with (k + 1 + length l) by lia.
      apply IH. intros i y Hy.
      replace (k + 1 + i) with (k + S i) by lia.
      replace (k + 1 + S i) with (k + S (S i)) by lia.
      by apply (Hbody (S i)).
Qed.

Lemma for_each_triple {A} (I : nat → St → Prop) (l : list A) body :
  (∀ i x, l !! i = Some x → triple (I i) (body x) (λ _, I (S i))) →
  triple (I 0) (for_each l body) (λ _, I (length l)).
Proof. intros H. by apply (for_each_triple_from I l body 0). Qed.

End GenLogic.

Section IRTFacts.
Import DataTools Rand IRT.
Context (rng : Rng) (num_students num_assessments n : nat) (USING_2PL : bool).
Context (p : Params) (σ0 : RngState).
Context (Hprof : length (proficiencies p) = num_students).
Context (Hdiff : length (difficulties p) = num_assessments).
Context (Hdisc : length (discriminabilities p) = num_assessments).
Context (Hpos : 0 < num_assessments).

Definition advance (k : nat) : RngState :=
  mkRngState (py_random_pos σ0) (py_randbits_pos σ0 + k) (np_normal_pos σ0)
             (np_random_pos σ0 + k).

Definition module_at (s t : nat) : nat :=
  py_randbits rng (py_randbits_pos σ0 + (s * n + t)) `mod` num_assessments.

Definition ixn_at (s t : nat) (row : Ixn) : Prop :=
  ∃ pl, pass_likelihood p s (module_at s t) = Some pl ∧
    row = mkIxn ("S" +:+ pretty s) ("A" +:+ pretty (module_at s t)) Assessment
            (Some (bool_decide (np_random rng (np_random_pos σ0 + (s * n + t)) < pl)%R))
            (t + 1).

Definition Inv (k : nat) (st : State) : Prop :=
  rng_state st = advance k ∧ length (ixns st) = num_students * n ∧
  ∀ s t, t < n → s * n + t < k →
    ∃ row, ixns st !! (s * n + t) = Some (Some row) ∧ ixn_at s t row.

Lemma module_at_lt s t : module_at s t < num_assessments.
Proof. unfold module_at. apply Nat.mod_upper_bound. lia. Qed.

Lemma pass_likelihood_Some s m :
  s < num_students → m < num_assessments →
  ∃ a θ b, discriminabilities p !! m = Some a ∧ proficiencies p !! s = Some θ
    ∧ difficulties p !! m = Some b
    ∧ pass_likelihood p s m = Some (sigmoid (a * θ + b)).
Proof.
  intros Hs Hm.
  destruct (lookup_lt_is_Some_2 (discriminabilities p) m) as [a Ha]; [lia|].
  destruct (lookup_lt_is_Some_2 (proficiencies p) s) as [θ Hθ]; [lia|].
  destruct (lookup_lt_is_Some_2 (difficulties p) m) as [b Hb]; [lia|].
  exists a, θ, b. unfold pass_likelihood. rewrite Ha, Hθ, Hb. done.
Qed.

Lemma flat_index_inj s t s' t' :
  t < n → t' < n → s * n + t = s' * n + t' → s = s' ∧ t = t'.
Proof.
  intros Ht Ht' Heq.
  destruct (Nat.lt_trichotomy s s') as [Hlt|[->|Hlt]]; [|lia|].
  - pose proof (Nat.mul_le_mono_r (S s) s' n Hlt). lia.
  - pose proof (Nat.mul_le_mono_r (S s') s n Hlt). lia.
Qed.

Lemma sample_ixn_triple s t :
  s < num_students → t < n →
  triple (Inv (s * n + t))
    (sample_ixn rng num_assessments n p s ("S" +:+ pretty s) t)
    (λ _, Inv (s * n + t + 1)).
Proof.
  intros Hs Ht st (Hrng & Hlen & Hrows).
  destruct (pass_likelihood_Some s (module_at s t) Hs (module_at_lt s t))
    as (a & θ & b & Ha & Hθ & Hb & Hpl).
  eexists tt, _. split.
  - unfold sample_ixn, mbind, gen_bind, draw_or_raise, random_choice, randbelow, draw.
    rewrite Hrng. simpl. unfold assessment_idxes. rewrite length_seq.
    fold (module_at s t). rewrite lookup_seq_lt by apply module_at_lt. simpl.
    rewrite Hpl. simpl. unfold assessment_ids.
    rewrite list_lookup_fmap, lookup_seq_lt by apply module_at_lt. simpl.
    unfold set_ixn. simpl. rewrite decide_True; [done|]. rewrite Hlen. nia.
  - split; [|split].
    + simpl. unfold advance. f_equal; lia.
    + simpl. by rewrite length_insert.
    + intros s' t' Ht' Hk. simpl.
      destruct (decide (s' * n + t' = s * n + t)) as [Heq|Hne].
      * destruct (flat_index_inj _ _ _ _ Ht' Ht Heq) as [-> ->].
        eexists. split.
        -- apply list_lookup_insert_eq. rewrite Hlen. nia.
        -- exists (sigmoid (a * θ + b)). split; [done|]. done.
      * rewrite list_lookup_insert_ne by done. apply Hrows; [done|lia].
Qed.

Lemma student_loop_triple s :
  s < num_students →
  triple (Inv (s * n))
    (for_each (seq 0 n) (sample_ixn rng num_assessments n p s ("S" +:+ pretty s)))
    (λ _, Inv (S s * n)).
Proof.
  intros Hs.
  pose proof (for_each_triple (λ t, Inv (s * n + t)) (seq 0 n)
    (sample_ixn rng num_assessments n p s ("S" +:+ pretty s))) as H.
  rewrite length_seq, Nat.add_0_r in H.
  replace (S s * n) with (s * n + n) by lia. apply H.
  intros i x [-> Hi]%lookup_seq. simpl.
  replace (s * n + S i) with (s * n + i + 1) by lia.
  by apply sample_ixn_triple.
Qed.

Lemma sample_ixns_triple :
  triple (Inv 0) (sample_ixns rng num_students num_assessments n p)
         (λ _, Inv (num_students * n)).
Proof.
  unfold sample_ixns, student_ids.
  pose proof (for_each_triple (λ s, Inv (s * n))
    (imap (λ student_idx student_id, (student_idx, student_id))
          ((λ x, "S" +:+ pretty x) <$> seq 0 num_students))) as H.
  rewrite length_imap, length_fmap, length_seq in H. apply H.
  intros i [s sid]. rewrite list_lookup_imap, list_lookup_fmap.
  destruct (seq 0 num_students !! i) as [x|] eqn:Hx; [|done].
  apply lookup_seq in Hx as [-> Hi]. simpl. intros [= <- <-].
  by apply student_loop_triple.
Qed.

Lemma Inv_rows st :
  Inv (num_students * n) st →
  ∃ rows, mapM (λ row, row) (ixns st) = Some rows
    ∧ length rows = num_students * n
    ∧ ∀ s t, s < num_students → t < n →
        ∃ row, rows !! (s * n + t) = Some row ∧ ixn_at s t row.
Proof.
  intros (_ & Hlen & Hrows).
  assert (∀ k, k < num_students * n → ∃ s t, t < n ∧ s < num_students ∧ k = s * n + t)
    as Hsplit.
  { intros k Hk. assert (n ≠ 0) by lia. exists (k `div` n), (k `mod` n).
    split; [by apply Nat.mod_upper_bound|]. split.
    - apply Nat.Div0.div_lt_upper_bound. lia.
    - rewrite (Nat.div_mod_eq k n) at 1. lia. }
  assert (Forall (λ o : option Ixn, is_Some o) (ixns st)) as Hall.
  { apply Forall_lookup. intros k o Hk.
    destruct (Hsplit k) as (s & t & Ht & Hs & ->).
    { rewrite <- Hlen. by eapply lookup_lt_Some. }
    destruct (Hrows s t Ht) as (row & Hrow & _).
    { pose proof (Nat.mul_le_mono_r (S s) num_students n Hs). lia. }
    rewrite Hrow in Hk. by simplify_eq. }
  destruct (mapM_is_Some_2 (λ row : option Ixn, row) (ixns st) Hall) as [rows Hm].
  exists rows. split; [done|].
  apply mapM_Some in Hm. split.
  - by rewrite <- (Forall2_length _ _ _ Hm).
  - intros s t Hs Ht. destruct (Hrows s t Ht) as (row & Hrow & Hat).
    { pose proof (Nat.mul_le_mono_r (S s) num_students n Hs). lia. }
    exists row. split; [|done].
    destruct (Forall2_lookup_l _ _ _ _ _ Hm Hrow) as (row' & ? & ?).
    by simplify_eq.
Qed.

End IRTFacts.

Section IRTScenario.
Import DataTools Rand IRT.
Context (rng : Rng).

Lemma draw_params_spec ns na using2pl :
  ∃ p σ, draw_params rng ns na using2pl seed = (p, σ)
    ∧ proficiencies p = (λ k, 0 + 1 * np_standard_normal rng k)%R <$> seq 0 ns
    ∧ difficulties p = (λ k, 0 + 1 * np_standard_normal rng (ns + k))%R <$> seq 0 na
    ∧ discriminabilities p
      = (if using2pl
         then (λ k, 0 + 1 * np_standard_normal rng (ns + na + k))%R <$> seq 0 na
         else replicate na 1%R)
    ∧ py_randbits_pos σ = 0 ∧ np_random_pos σ = 0.
Proof.
  unfold draw_params, np_random_normal. simpl. destruct using2pl; simpl.
  - eexists _, _. repeat split; done.
  - eexists _, _. repeat split; done.
Qed.

Lemma synthetic_history_spec ns na n using2pl :
  0 < na →
  ∃ p σ rows,
    draw_params rng ns na using2pl seed = (p, σ)
    ∧ synthetic_history rng ns na n using2pl = Some (p, rows)
    ∧ length rows = ns * n
    ∧ ∀ s t, s < ns → t < n →
        ∃ row, rows !! (s * n + t) = Some row ∧ ixn_at rng na n p σ s t row.
Proof.
  intros Hna.
  destruct (draw_params_spec ns na using2pl) as (p & σ & Hp & Hprof & Hdiff & Hdisc & _).
  assert (length (proficiencies p) = ns) by (by rewrite Hprof, length_fmap, length_seq).
  assert (length (difficulties p) = na) by (by rewrite Hdiff, length_fmap, length_seq).
  assert (length (discriminabilities p) = na).
  { rewrite Hdisc. destruct using2pl;
      [by rewrite length_fmap, length_seq|by rewrite length_replicate]. }
  destruct (sample_ixns_triple rng ns na n p σ ltac:(done) ltac:(done) ltac:(done) Hna
              (mkState σ (replicate (ns * n) None))) as ([] & st & Hrun & Hinv).
  { split; [|split].
    - simpl. unfold advance. destruct σ. simpl. f_equal; lia.
    - simpl. by rewrite length_replicate.
    - intros; lia. }
  destruct (Inv_rows rng ns na n p σ ltac:(done) ltac:(done) ltac:(done) Hna st Hinv)
    as (rows & Hrows & Hlen & Hat).
  exists p, σ, rows. split; [done|]. split; [|done].
  unfold synthetic_history. rewrite Hp, Hrun. simpl. by rewrite Hrows.
Qed.

End IRTScenario.


(** * The claims *)

Section ParserClaims.
Import DataTools Parsers.

(** A parser keeps a raw row only if its outcome is 0 or 1 and its duration
    is positive, and it keeps every such row (as one assessment
    interaction). *)
Definition keeps_only_wellformed {A : Type}
    (parse : list A → InteractionHistory) (idx : A → nat)
    (outcome_of duration_of : A → option Q) (cols : A → Row) : Prop :=
  ∀ raws : list A,
    (∀ r, r ∈ data (parse raws) →
       ∃ raw, raw ∈ raws ∧ idx raw = index r
         ∧ binary (outcome_of raw) ∧ positive (duration_of raw))
    ∧ length (filter (λ r, module_type r = Assessment) (data (parse raws)))
      = length (filter (λ raw, binary_outcome (cols raw) ∧ positive_duration (cols raw)) raws).

Lemma build_history_keeps_only_wellformed {A : Type}
    (key : A → option Z) (cols : A → Row) (unit : Q → Q) :
  keeps_only_wellformed
    (λ raws, build_history unit (cols <$> sort_values key raws))
    (λ raw, row_index (cols raw))
    (λ raw, row_outcome (cols raw)) (λ raw, row_duration (cols raw)) cols.
Proof.
  intros raws. split.
  - intros r (row & Hrow & Hkeep & Hidx & _)%build_history_source.
    apply list_elem_of_fmap in Hrow as (raw & -> & Hraw).
    apply elem_of_sort_values in Hraw. apply keep_spec in Hkeep as [? ?].
    by exists raw.
  - rewrite build_history_assessments, length_assessment_frame.
    rewrite length_filter_fmap.
    rewrite (filter_Permutation _ _ _ (sort_values_perm key raws)).
    f_equal. apply list_filter_iff. intros raw. unfold keep.
    by rewrite andb_True.
Qed.

Lemma grockit_build_history raws :
  interaction_history_from_grockit_data_set raws
  = build_history (λ d, d) (grockit_columns <$> sort_values g_answered_at raws).
Proof. reflexivity. Qed.

Lemma kdd_build_history raws :
  interaction_history_from_kdd_cup_data_set raws
  = build_history (λ d, d) (kdd_columns <$> sort_values k_step_start_time raws).
Proof. reflexivity. Qed.

Lemma assistments_build_history raws duration_column module_id_column :
  interaction_history_from_assistments_data_set raws duration_column module_id_column
  = build_history ms_to_s
      (assistments_columns duration_column module_id_column
         <$> sort_values (λ r, Some (a_order_id r)) raws).
Proof. reflexivity. Qed.

(** C5: every parser keeps a raw row only if its outcome is binary (0 or 1)
    and its duration is strictly positive: each row of the history comes
    from such a raw row, and the history has exactly one assessment
    interaction per such raw row, so the malformed rows are dropped. *)
Theorem parsers_drop_malformed_rows :
  keeps_only_wellformed interaction_history_from_grockit_data_set
    g_index g_correct grockit_duration grockit_columns
  ∧ keeps_only_wellformed interaction_history_from_kdd_cup_data_set
      k_index k_correct_first_attempt k_step_duration kdd_columns
  ∧ ∀ duration_column module_id_column,
      keeps_only_wellformed
        (λ raws, interaction_history_from_assistments_data_set
                   raws duration_column module_id_column)
        a_index a_correct duration_column
        (assistments_columns duration_column module_id_column).
Proof.
  split; [|split].
  - intros raws. rewrite grockit_build_history.
    exact (build_history_keeps_only_wellformed g_answered_at grockit_columns
             (λ d, d) raws).
  - intros raws. rewrite kdd_build_history.
    exact (build_history_keeps_only_wellformed k_step_start_time kdd_columns
             (λ d, d) raws).
  - intros duration_column module_id_column raws.
    rewrite assistments_build_history.
    exact (build_history_keeps_only_wellformed (λ r, Some (a_order_id r))
             (assistments_columns duration_column module_id_column) ms_to_s raws).
Qed.

(** A well-formed row, a row with a non-binary outcome, a row with a
    duration of zero and a row without outcome. *)
Definition assistments_example : list AssistmentsRow :=
  [ mkAssistmentsRow 0 7 (Some 1%Q) (Some 2500%Q) 100 30;
    mkAssistmentsRow 1 7 (Some (1 # 2)%Q) (Some 900%Q) 101 20;
    mkAssistmentsRow 2 8 (Some 0%Q) (Some 0%Q) 101 25;
    mkAssistmentsRow 3 8 None (Some 40%Q) 102 6 ].

Lemma parsers_drop_malformed_rows_witness :
  index <$> data (interaction_history_from_assistments_data_set
                    assistments_example a_ms_first_response_time a_problem_id)
  = [0; 0]
  ∧ ∃ raw, raw ∈ assistments_example ∧ a_index raw = 0
      ∧ binary (a_correct raw) ∧ positive (a_ms_first_response_time raw).
Proof.
  split; [by vm_compute|].
  apply (proj1 (proj2 (proj2 parsers_drop_malformed_rows)
                  a_ms_first_response_time a_problem_id assistments_example)
           (mkInteraction 0 7 100 Assessment (Some true) 1 (Some (2500 / 1000)%Q) None)).
  vm_compute. apply list_elem_of_In. simpl. auto.
Defined.

(** The lesson interactions of a history are the copies of its assessment
    interactions, with the module type overwritten and nothing else. *)
Definition adds_lesson_copies {A : Type} (parse : list A → InteractionHistory) : Prop :=
  ∀ raws : list A,
    let h := data (parse raws) in
    filter (λ r, module_type r = Lesson) h
    ≡ₚ set_module_type Lesson <$> filter (λ r, module_type r = Assessment) h
    ∧ length (filter (λ r, module_type r = Lesson) h)
      = length (filter (λ r, module_type r = Assessment) h)
    ∧ (∀ a, a ∈ h → module_type a = Assessment → set_module_type Lesson a ∈ h)
    ∧ (∀ r, r ∈ h → module_type r = Lesson →
         ∃ a b, a ∈ h ∧ module_type a = Assessment ∧ r = set_module_type Lesson a
           ∧ outcome r = Some b ∧ timestep r = timestep a).

Lemma build_history_adds_lesson_copies {A : Type}
    (key : A → option Z) (cols : A → Row) (unit : Q → Q) :
  adds_lesson_copies (λ raws, build_history unit (cols <$> sort_values key raws)).
Proof.
  intros raws h. subst h. set (rows := cols <$> sort_values key raws).
  assert (Hles := build_history_lessons unit rows).
  assert (Hass := build_history_assessments unit rows).
  split; [by rewrite Hles, Hass|]. split.
  { by rewrite Hles, Hass, length_fmap. }
  split.
  - intros a Ha Hty. apply elem_of_build_history.
    apply elem_of_build_history in Ha as (a' & Ha' & [->| ->]); [|done].
    exists a'. split; [done|by right].
  - intros r Hr Hty.
    apply elem_of_build_history in Hr as (a & Ha & [->| ->]).
    { by rewrite (assessment_frame_type _ _ _ Ha) in Hty. }
    pose proof (assessment_frame_type _ _ _ Ha) as Hta.
    apply assessment_frame_source in Ha as Hsrc. destruct Hsrc as (row & _ & _ & Hrow).
    exists a, (cast_outcome (row_outcome row)). split.
    { apply elem_of_build_history. exists a. split; [done|by left]. }
    split; [done|]. split; [done|]. split; [|done].
    rewrite Hrow. done.
Qed.

(** C10: every parser adds, for each assessment interaction it retains, a
    lesson interaction that copies the assessment row except for its module
    type: the history holds as many lesson as assessment interactions, and a
    lesson row carries the boolean outcome and the timestep of the
    assessment row it copies. *)
Theorem parsers_add_lesson_copies :
  adds_lesson_copies interaction_history_from_grockit_data_set
  ∧ adds_lesson_copies interaction_history_from_kdd_cup_data_set
  ∧ ∀ duration_column module_id_column,
      adds_lesson_copies
        (λ raws, interaction_history_from_assistments_data_set
                   raws duration_column module_id_column).
Proof.
  split; [|split].
  - intros raws. rewrite grockit_build_history.
    exact (build_history_adds_lesson_copies g_answered_at grockit_columns
             (λ d, d) raws).
  - intros raws. rewrite kdd_build_history.
    exact (build_history_adds_lesson_copies k_step_start_time kdd_columns
             (λ d, d) raws).
  - intros duration_column module_id_column raws.
    rewrite assistments_build_history.
    exact (build_history_adds_lesson_copies (λ r, Some (a_order_id r))
             (assistments_columns duration_column module_id_column) ms_to_s raws).
Qed.

Lemma parsers_add_lesson_copies_witness :
  set_module_type Lesson
    (mkInteraction 0 7 100 Assessment (Some true) 1 (Some (2500 / 1000)%Q) None)
  ∈ data (interaction_history_from_assistments_data_set
            assistments_example a_ms_first_response_time a_problem_id).
Proof.
  apply (proj1 (proj2 (proj2 (proj2 (proj2 parsers_add_lesson_copies)
           a_ms_first_response_time a_problem_id assistments_example)))).
  - vm_compute. apply list_elem_of_In. simpl. auto.
  - done.
Defined.

End ParserClaims.

Section TimestepClaims.
Import DataTools Parsers Filter.

(** The timesteps of each student are the integers from 1 to some [n]. *)
Definition contiguous_timesteps (h : InteractionHistory) : Prop :=
  ∀ s, ∃ n, ∀ t,
    (∃ r, r ∈ data h ∧ student_id r = s ∧ timestep r = t) ↔ 1 ≤ t ≤ n.

(** Of two interactions of a student, the one whose raw row has the strictly
    smaller sort key (time stamp, order id) has the smaller timestep. *)
Definition chronological {A : Type} (key : A → option Z) (idx : A → nat)
    (raws : list A) (h : InteractionHistory) : Prop :=
  ∀ raw1 raw2 r1 r2,
    raw1 ∈ raws → raw2 ∈ raws → r1 ∈ data h → r2 ∈ data h →
    idx raw1 = index r1 → idx raw2 = index r2 →
    student_id r1 = student_id r2 →
    key_le (key raw2) (key raw1) = false →
    timestep r1 < timestep r2.

(** Re-indexing keeps the rows in place and the order of the timesteps of
    each student. *)
Definition order_preserved (old new : list Interaction) : Prop :=
  length new = length old
  ∧ ∀ i j r1 r2 r1' r2',
      old !! i = Some r1 → old !! j = Some r2 →
      new !! i = Some r1' → new !! j = Some r2' →
      student_id r1' = student_id r1
      ∧ (student_id r1 = student_id r2 →
         (timestep r1 < timestep r2 ↔ timestep r1' < timestep r2')).

Lemma build_history_contiguous {A : Type}
    (key : A → option Z) (cols : A → Row) (unit : Q → Q) (raws : list A) :
  contiguous_timesteps (build_history unit (cols <$> sort_values key raws)).
Proof.
  intros s. eexists. intros t. apply build_history_timesteps.
Qed.

Lemma build_history_is_chronological {A : Type}
    (key : A → option Z) (cols : A → Row) (unit : Q → Q) (raws : list A) :
  NoDup ((λ a, row_index (cols a)) <$> raws) →
  chronological key (λ a, row_index (cols a)) raws
    (build_history unit (cols <$> sort_values key raws)).
Proof.
  intros Hnd raw1 raw2 r1 r2 ? ? ? ? ? ? ? ?.
  by eapply (build_history_chronological key cols unit raws raw1 raw2).
Qed.

Lemma reindex_contiguous (l : list Interaction) :
  contiguous_timesteps (mkHistory (reindex l)).
Proof.
  intros s. exists (size (student_timesteps l s)). intros t. simpl.
  rewrite <- elem_of_student_timesteps, student_timesteps_reindex, elem_of_set_seq.
  lia.
Qed.

Lemma reindex_order_preserved (l : list Interaction) :
  order_preserved l (reindex l).
Proof.
  split; [apply length_fmap|].
  intros i j r1 r2 r1' r2' H1 H2. unfold reindex.
  rewrite !list_lookup_fmap, H1, H2. simpl. intros [= <-] [= <-].
  split; [done|]. simpl. intros Hs. rewrite <- Hs.
  assert (timestep r1 ∈ student_timesteps l (student_id r1)).
  { apply elem_of_student_timesteps. exists r1.
    split; [by eapply list_elem_of_lookup_2|done]. }
  assert (timestep r2 ∈ student_timesteps l (student_id r1)).
  { apply elem_of_student_timesteps. exists r2.
    split; [by eapply list_elem_of_lookup_2|done]. }
  split.
  - intros Hlt. by apply rank_lt.
  - intros Hlt. destruct (decide (timestep r1 < timestep r2)) as [|Hge]; [done|].
    pose proof (rank_mono (student_timesteps l (student_id r1))
                  (timestep r2) (timestep r1) ltac:(lia)). lia.
Qed.

(** C6: in a history built by a parser, and in a history re-filtered (and
    so re-indexed) by [filter_history], the timesteps of every student are
    the integers from 1 to some [n], without gap; a parser numbers the
    interactions of a student in the order of their time keys, and the
    re-indexing keeps the order of the timesteps. *)
Theorem timesteps_contiguous_and_chronological :
  (∀ raws,
     contiguous_timesteps (interaction_history_from_grockit_data_set raws)
     ∧ (NoDup (g_index <$> raws) →
        chronological g_answered_at g_index raws
          (interaction_history_from_grockit_data_set raws)))
  ∧ (∀ raws,
       contiguous_timesteps (interaction_history_from_kdd_cup_data_set raws)
       ∧ (NoDup (k_index <$> raws) →
          chronological k_step_start_time k_index raws
            (interaction_history_from_kdd_cup_data_set raws)))
  ∧ (∀ raws duration_column module_id_column,
       contiguous_timesteps
         (interaction_history_from_assistments_data_set
            raws duration_column module_id_column)
       ∧ (NoDup (a_index <$> raws) →
          chronological (λ r, Some (a_order_id r)) a_index raws
            (interaction_history_from_assistments_data_set
               raws duration_column module_id_column)))
  ∧ (∀ h min_num_ixns max_num_ixns,
       contiguous_timesteps (filter_history h min_num_ixns max_num_ixns)
       ∧ order_preserved (selected_rows h min_num_ixns max_num_ixns)
           (data (filter_history h min_num_ixns max_num_ixns))).
Proof.
  split; [|split; [|split]].
  - intros raws. rewrite grockit_build_history. split.
    + exact (build_history_contiguous g_answered_at grockit_columns (λ d, d) raws).
    + exact (build_history_is_chronological g_answered_at grockit_columns
               (λ d, d) raws).
  - intros raws. rewrite kdd_build_history. split.
    + exact (build_history_contiguous k_step_start_time kdd_columns (λ d, d) raws).
    + exact (build_history_is_chronological k_step_start_time kdd_columns
               (λ d, d) raws).
  - intros raws duration_column module_id_column.
    rewrite assistments_build_history. split.
    + exact (build_history_contiguous (λ r, Some (a_order_id r))
               (assistments_columns duration_column module_id_column) ms_to_s raws).
    + exact (build_history_is_chronological (λ r, Some (a_order_id r))
               (assistments_columns duration_column module_id_column) ms_to_s raws).
  - intros h min_num_ixns max_num_ixns. split.
    + apply reindex_contiguous.
    + apply reindex_order_preserved.
Qed.

(** Two well-formed rows of one student, the later one first in the file. *)
Definition assistments_two_rows : list AssistmentsRow :=
  [ mkAssistmentsRow 0 7 (Some 1%Q) (Some 2500%Q) 100 30;
    mkAssistmentsRow 1 7 (Some 0%Q) (Some 900%Q) 101 20 ].

Lemma timesteps_contiguous_and_chronological_witness :
  contiguous_timesteps
    (interaction_history_from_assistments_data_set
       assistments_two_rows a_ms_first_response_time a_problem_id)
  ∧ chronological (λ r, Some (a_order_id r)) a_index assistments_two_rows
      (interaction_history_from_assistments_data_set
         assistments_two_rows a_ms_first_response_time a_problem_id).
Proof.
  destruct (proj1 (proj2 (proj2 timesteps_contiguous_and_chronological))
              assistments_two_rows a_ms_first_response_time a_problem_id)
    as [Hc Hchr].
  split; [exact Hc|]. apply Hchr.
  vm_compute. apply NoDup_cons. split; [|apply NoDup_singleton].
  by intros ?%list_elem_of_singleton.
Defined.

End TimestepClaims.

Section FilterClaims.
Import DataTools Filter.


(** Student 1 has one assessment interaction, at timestep 1; student 2 has
    two; all three are on module 10. *)
Definition three_rows : InteractionHistory :=
  mkHistory
    [ mkInteraction 0 1 10 Assessment (Some true) 1 None None;
      mkInteraction 1 2 10 Assessment (Some true) 1 None None;
      mkInteraction 2 2 10 Assessment (Some false) 2 None None ].



(** C8: a filtered history from which a second application of
    [filter_history], with the same thresholds, removes no row is returned
    unchanged by that application; the notebook applies the filter
    [REPEATED_FILTER] = 3 times, with thresholds 75 and 1000. *)
Theorem filter_history_idempotent_at_fixed_point :
  (∀ g min_num_ixns max_num_ixns,
     let h := filter_history g min_num_ixns max_num_ixns in
     length (data (filter_history h min_num_ixns max_num_ixns)) = length (data h) →
     filter_history h min_num_ixns max_num_ixns = h)
  ∧ REPEATED_FILTER = 3
  ∧ ∀ unfiltered_history,
      repeated_filter unfiltered_history
      = filter_history
          (filter_history (filter_history unfiltered_history 75 1000) 75 1000)
          75 1000.
Proof.
  split; [|split].
  - apply filter_history_fixed.
  - done.
  - intros unfiltered_history. unfold repeated_filter, REPEATED_FILTER. done.
Qed.

Lemma filter_history_idempotent_at_fixed_point_witness :
  filter_history (filter_history three_rows 1 5) 1 5 = filter_history three_rows 1 5.
Proof.
  apply (proj1 filter_history_idempotent_at_fixed_point three_rows 1%Z 5%Z).
  by vm_compute.
Defined.

End FilterClaims.

Section IRTClaims.
Import DataTools Rand IRT.
Local Open Scope R_scope.

Lemma sigmoid_lt (x y : R) : x < y → sigmoid x < sigmoid y.
Proof.
  intros Hxy. unfold sigmoid.
  pose proof (exp_pos (- x)). pose proof (exp_pos (- y)).
  assert (exp (- y) < exp (- x)) by (apply exp_increasing; lra).
  unfold Rdiv. rewrite !Rmult_1_l. apply Rinv_lt_contravar; [|lra].
  apply Rmult_lt_0_compat; lra.
Qed.

Lemma sigmoid_bounds (x : R) : 0 < sigmoid x < 1.
Proof.
  unfold sigmoid. pose proof (exp_pos (- x)). split.
  - apply Rdiv_lt_0_compat; lra.
  - apply (Rmult_lt_reg_r (1 + exp (- x))); [lra|].
    unfold Rdiv. rewrite Rmult_assoc, Rinv_l; lra.
Qed.

Lemma pass_likelihood_eq (p : Params) (s m : nat) (a θ b : R) :
  discriminabilities p !! m = Some a →
  proficiencies p !! s = Some θ →
  difficulties p !! m = Some b →
  pass_likelihood p s m = Some (sigmoid (a * θ + b)).
Proof. intros Ha Hθ Hb. unfold pass_likelihood. by rewrite Ha, Hθ, Hb. Qed.

Local Close Scope R_scope.

(** C3, as amended: the generator's logit for student [s] and assessment
    [m] is [discriminabilities[m] * proficiencies[s] + difficulties[m]]; in
    the 1PL scenario every discriminability is 1 and the pass likelihood is
    [sigmoid (proficiency + difficulty)]: the item parameter is added, so
    the generator's difficulty is the negated difficulty of the logit
    [proficiency - difficulty]. *)
Theorem onepl_generator_adds_difficulty :
  (∀ (p : Params) (s m : nat) (a θ b : R),
     discriminabilities p !! m = Some a →
     proficiencies p !! s = Some θ →
     difficulties p !! m = Some b →
     pass_likelihood p s m = Some (sigmoid (a * θ + b)))
  ∧ (∀ rng, ∃ p σ,
       draw_params rng num_students num_assessments USING_2PL seed = (p, σ)
       ∧ ∀ s m, s < num_students → m < num_assessments →
           ∃ θ b, proficiencies p !! s = Some θ ∧ difficulties p !! m = Some b
             ∧ discriminabilities p !! m = Some 1%R
             ∧ pass_likelihood p s m = Some (sigmoid (θ + b))
             ∧ (θ + b)%R = onepl_logit_spec θ (- b)).
Proof.
  split; [apply pass_likelihood_eq|]. intros rng.
  destruct (draw_params_spec rng num_students num_assessments USING_2PL)
    as (p & σ & Hp & Hprof & Hdiff & Hdisc & _).
  exists p, σ. split; [done|]. intros s m Hs Hm.
  assert (proficiencies p !! s = Some (0 + 1 * np_standard_normal rng s)%R) as Hθ.
  { rewrite Hprof, list_lookup_fmap, lookup_seq_lt by done. reflexivity. }
  assert (difficulties p !! m
          = Some (0 + 1 * np_standard_normal rng (num_students + m))%R) as Hb.
  { rewrite Hdiff, list_lookup_fmap, lookup_seq_lt by done. reflexivity. }
  assert (discriminabilities p !! m = Some 1%R) as Hd.
  { rewrite Hdisc. by apply lookup_replicate_2. }
  eexists _, _. split; [exact Hθ|]. split; [exact Hb|]. split; [exact Hd|]. split.
  - rewrite (pass_likelihood_eq p s m _ _ _ Hd Hθ Hb). do 2 f_equal. lra.
  - unfold onepl_logit_spec. lra.
Qed.

(** Normal draws that make the first proficiency 0 and every difficulty 1. *)
Definition rng_difficulty_one : Rng :=
  mkRng (λ _, 0%R) (λ _, 0)
        (λ k, if decide (k < num_students) then 0%R else 1%R) (λ _, 0%R).

Lemma onepl_generator_adds_difficulty_witness :
  ∃ θ b,
    pass_likelihood (fst (draw_params rng_difficulty_one num_students
                            num_assessments USING_2PL seed)) 0 0
    = Some (sigmoid (θ + b)).
Proof.
  destruct (proj2 onepl_generator_adds_difficulty rng_difficulty_one)
    as (p & σ & Hp & H).
  destruct (H 0 0) as (θ & b & _ & _ & _ & Hpl & _).
  - unfold num_students. lia.
  - unfold num_assessments. lia.
  - exists θ, b. by rewrite Hp.
Defined.

(** With proficiency 0 and difficulty 1 the claim gives the pass likelihood
    [sigmoid (0 - 1)]; the generator's is [sigmoid (1 * 0 + 1)], which is
    larger. *)
Lemma onepl_generator_not_minus_difficulty :
  ∃ p σ θ b pl,
    draw_params rng_difficulty_one num_students num_assessments USING_2PL seed = (p, σ)
    ∧ proficiencies p !! 0 = Some θ ∧ θ = 0%R
    ∧ difficulties p !! 0 = Some b ∧ b = 1%R
    ∧ pass_likelihood p 0 0 = Some pl
    ∧ (sigmoid (onepl_logit_spec θ b) < pl)%R.
Proof.
  destruct (draw_params_spec rng_difficulty_one num_students num_assessments USING_2PL)
    as (p & σ & Hp & Hprof & Hdiff & Hdisc & _).
  assert (0 < num_students) as Hs by (unfold num_students; lia).
  assert (0 < num_assessments) as Ha by (unfold num_assessments; lia).
  assert (proficiencies p !! 0 = Some 0%R) as Hθ.
  { rewrite Hprof, list_lookup_fmap, lookup_seq_lt by done.
    unfold rng_difficulty_one, np_standard_normal. cbn [fmap option_fmap option_map].
    rewrite decide_True by done. f_equal. lra. }
  assert (difficulties p !! 0 = Some 1%R) as Hb.
  { rewrite Hdiff, list_lookup_fmap, lookup_seq_lt by done.
    unfold rng_difficulty_one, np_standard_normal. cbn [fmap option_fmap option_map].
    rewrite decide_False by lia. f_equal. lra. }
  assert (discriminabilities p !! 0 = Some 1%R) as Hd.
  { rewrite Hdisc. by apply lookup_replicate_2. }
  exists p, σ, 0%R, 1%R, (sigmoid (1 * 0 + 1)).
  split; [done|]. split; [done|]. split; [done|]. split; [done|]. split; [done|].
  split; [by apply pass_likelihood_eq|].
  apply sigmoid_lt. unfold onepl_logit_spec. lra.
Qed.


Lemma onepl_scenario_general (rng : Rng) (ns na n : nat) :
  0 < na →
  ∃ p rows,
    synthetic_history rng ns na n false = Some (p, rows)
    ∧ length (proficiencies p) = ns ∧ length (difficulties p) = na
    ∧ (∀ i, i < ns → proficiencies p !! i = Some (np_standard_normal rng i))
    ∧ (∀ j, j < na → difficulties p !! j = Some (np_standard_normal rng (ns + j)))
    ∧ discriminabilities p = replicate na 1%R
    ∧ length rows = ns * n
    ∧ ∀ s t, s < ns → t < n →
        ∃ m θ b,
          m = py_randbits rng (s * n + t) `mod` na
          ∧ proficiencies p !! s = Some θ ∧ difficulties p !! m = Some b
          ∧ rows !! (s * n + t)
            = Some (mkIxn ("S" +:+ pretty s) ("A" +:+ pretty m) Assessment
                      (Some (bool_decide
                               (np_random rng (s * n + t) < sigmoid (1 * θ + b))%R))
                      (t + 1)).
Proof.
  intros Hna.
  destruct (draw_params_spec rng ns na false)
    as (p & σ & Hp & Hprof & Hdiff & Hdisc & Hbits & Hunif).
  destruct (synthetic_history_spec rng ns na n false Hna)
    as (p' & σ' & rows & Hp' & Hrun & Hlen & Hrows).
  rewrite Hp in Hp'. injection Hp' as <- <-.
  exists p, rows. split; [exact Hrun|].
  split; [by rewrite Hprof, length_fmap, length_seq|].
  split; [by rewrite Hdiff, length_fmap, length_seq|].
  split.
  { intros i Hi. rewrite Hprof, list_lookup_fmap, lookup_seq_lt by done.
    cbn [fmap option_fmap option_map]. f_equal. rewrite Nat.add_0_l. lra. }
  split.
  { intros j Hj. rewrite Hdiff, list_lookup_fmap, lookup_seq_lt by done.
    cbn [fmap option_fmap option_map]. f_equal. rewrite Nat.add_0_l. lra. }
  split; [exact Hdisc|]. split; [exact Hlen|].
  intros s t Hs Ht. destruct (Hrows s t Hs Ht) as (row & Hrow & pl & Hpl & ->).
  unfold module_at in *. rewrite Hbits, Hunif, !Nat.add_0_l in *.
  set (m := py_randbits rng (s * n + t) `mod` na) in *.
  assert (m < na) as Hm by (apply Nat.mod_upper_bound; lia).
  destruct (lookup_lt_is_Some_2 (proficiencies p) s) as [θ Hθ].
  { by rewrite Hprof, length_fmap, length_seq. }
  destruct (lookup_lt_is_Some_2 (difficulties p) m) as [b Hb].
  { by rewrite Hdiff, length_fmap, length_seq. }
  assert (discriminabilities p !! m = Some 1%R) as Hd.
  { rewrite Hdisc. by apply lookup_replicate_2. }
  rewrite (pass_likelihood_eq p s m _ _ _ Hd Hθ Hb) in Hpl. injection Hpl as <-.
  exists m, θ, b. done.
Qed.

(** C7: the 1PL scenario draws 2000 proficiencies and 3000 difficulties
    with [np.random.normal(0, 1, n)] (the standard normal variates of the
    generator, in the order drawn), sets every discriminability to 1, and
    for each of the 2000 students samples 1000 interactions whose outcome
    is [u < sigmoid (1 * proficiency + difficulty)] for a fresh uniform
    draw [u]: a Bernoulli draw with the pass likelihood of the true model. *)
Theorem onepl_scenario_generation (rng : Rng) :
  (num_students = 2000 ∧ num_assessments = 3000
   ∧ num_ixns_per_student = 1000 ∧ USING_2PL = false)
  ∧ ∃ p rows,
    notebook_history rng = Some (p, rows)
    ∧ length (proficiencies p) = num_students
    ∧ length (difficulties p) = num_assessments
    ∧ (∀ i, i < num_students →
         proficiencies p !! i = Some (np_standard_normal rng i))
    ∧ (∀ j, j < num_assessments →
         difficulties p !! j = Some (np_standard_normal rng (num_students + j)))
    ∧ discriminabilities p = replicate num_assessments 1%R
    ∧ length rows = num_students * num_ixns_per_student
    ∧ ∀ s t, s < num_students → t < num_ixns_per_student →
        ∃ m θ b,
          m = py_randbits rng (s * num_ixns_per_student + t) `mod` num_assessments
          ∧ proficiencies p !! s = Some θ ∧ difficulties p !! m = Some b
          ∧ rows !! (s * num_ixns_per_student + t)
            = Some (mkIxn ("S" +:+ pretty s) ("A" +:+ pretty m) Assessment
                      (Some (bool_decide
                               (np_random rng (s * num_ixns_per_student + t)
                                < sigmoid (1 * θ + b))%R))
                      (t + 1)).
Proof.
  split; [done|].
  apply (onepl_scenario_general rng num_students num_assessments
           num_ixns_per_student).
  apply Nat.lt_0_succ.
Qed.

Lemma onepl_scenario_generation_witness :
  ∃ p rows,
    notebook_history rng_difficulty_one = Some (p, rows)
    ∧ ∃ row, rows !! 0 = Some row ∧ timestep row = 1
        ∧ module_type row = Assessment.
Proof.
  destruct (proj2 (onepl_scenario_generation rng_difficulty_one))
    as (p & rows & Hrun & _ & _ & _ & _ & _ & _ & Hrows).
  destruct (Hrows 0 0) as (m & θ & b & _ & _ & _ & Hrow);
    [apply Nat.lt_0_succ..|].
  exists p, rows. split; [exact Hrun|]. eexists.
  split; [exact Hrow|]. split; reflexivity.
Defined.

End IRTClaims.


(** * The synthetic embedding and its sampling loop *)

(** ** Norms and the clamped embeddings *)

Section NormFacts.
Import Rand.
Local Open Scope R_scope.

Lemma dot_self_nonneg (v : list R) : 0 <= dot v v.
Proof.
  unfold dot. induction v as [|x v IH]; simpl; [lra|].
  pose proof (Rle_0_sqr x) as Hx. unfold Rsqr in Hx. lra.
Qed.

Lemma dot_self_ge (v : list R) (x : R) : x ∈ v → x * x <= dot v v.
Proof.
  unfold dot. induction v as [|y v IH]; [by intros ?%elem_of_nil|].
  intros [->|Hx]%elem_of_cons; simpl.
  - pose proof (dot_self_nonneg v) as Hv. unfold dot in Hv. lra.
  - pose proof (Rle_0_sqr y) as Hy. unfold Rsqr in Hy. specialize (IH Hx). lra.
Qed.

Lemma norm_ge (c : R) (v : list R) :
  0 < c → v ≠ [] → (∀ x, x ∈ v → c <= x) → c <= norm v.
Proof.
  intros Hc Hv Hall. destruct v as [|x v]; [done|].
  assert (c <= x) as Hx by (apply Hall; left).
  unfold norm. rewrite <- (sqrt_square c) by lra.
  apply sqrt_le_1_alt. etrans; [|apply (dot_self_ge _ x); left].
  apply Rmult_le_compat; lra.
Qed.

Lemma maximum_ge (c : R) (arr : list (list R)) (row : list R) (x : R) :
  row ∈ Embedding.maximum c arr → x ∈ row → c <= x.
Proof.
  unfold Embedding.maximum.
  intros (row' & -> & _)%list_elem_of_fmap (y & -> & _)%list_elem_of_fmap.
  apply Rmax_l.
Qed.

End NormFacts.

Section GridFacts.
Import Rand.

Lemma synthetic_embedding_shape :
  length <$> Embedding.A Embedding.synthetic_embedding
  = replicate Embedding.num_assessments Embedding.embedding_dimension
  ∧ length <$> Embedding.L Embedding.synthetic_embedding
    = replicate Embedding.num_lessons Embedding.embedding_dimension
  ∧ Embedding.lesson_count Embedding.synthetic_embedding = Embedding.num_lessons
  ∧ Embedding.assessment_idx_of_loc Embedding.synthetic_embedding !! (0, 0) = Some 0.
Proof. by vm_compute. Qed.

Lemma synthetic_embedding_A_rows (row : list R) :
  row ∈ Embedding.A Embedding.synthetic_embedding →
  length row = Embedding.embedding_dimension.
Proof.
  intros Hrow. destruct synthetic_embedding_shape as [Hshape _].
  assert (length row ∈ length <$> Embedding.A Embedding.synthetic_embedding) as Hin
    by (by apply list_elem_of_fmap_2).
  rewrite Hshape in Hin. by apply elem_of_replicate in Hin as [-> _].
Qed.

(** C9: the assessment and prerequisite embeddings are clamped entry by
    entry to at least [1e-3]; every assessment embedding has
    [embedding_dimension] = 2 entries, so its norm, the divisor of the
    pass likelihood, is at least [1e-3] and is not zero. *)
Theorem embeddings_clamped_and_norms_positive :
  (∀ row x, row ∈ Embedding.A Embedding.synthetic_embedding → x ∈ row →
            (1e-3 <= x)%R)
  ∧ (∀ row x, row ∈ Embedding.Q Embedding.synthetic_embedding → x ∈ row →
              (1e-3 <= x)%R)
  ∧ length (Embedding.A Embedding.synthetic_embedding) = Embedding.num_assessments
  ∧ (∀ assessment_idx a,
       Embedding.A Embedding.synthetic_embedding !! assessment_idx = Some a →
       length a = Embedding.embedding_dimension
       ∧ (1e-3 <= norm a)%R ∧ norm a ≠ 0%R).
Proof.
  assert (∀ row x, row ∈ Embedding.A Embedding.synthetic_embedding → x ∈ row →
                   (1e-3 <= x)%R) as HA.
  { intros row x. apply maximum_ge. }
  split; [exact HA|]. split; [intros row x; apply maximum_ge|]. split.
  { destruct synthetic_embedding_shape as [Hshape _].
    apply (f_equal length) in Hshape.
    by rewrite length_fmap, length_replicate in Hshape. }
  intros assessment_idx a Ha. apply list_elem_of_lookup_2 in Ha.
  pose proof (synthetic_embedding_A_rows a Ha) as Hlen.
  assert (1e-3 <= norm a)%R as Hnorm.
  { apply norm_ge; [lra|by intros ->|]. intros x Hx. by apply (HA a). }
  split; [done|]. split; [done|]. lra.
Qed.

End GridFacts.

(** ** The sampling loop *)

Section SkillArrayFacts.
Implicit Types (Sk : list (list (list R))) (v : list R).

Lemma S_get_set_eq Sk s t v Sk' :
  Embedding.S_set Sk s t v = Some Sk' → Embedding.S_get Sk' s t = Some v.
Proof.
  unfold Embedding.S_set, Embedding.S_get. intros H.
  destruct (Sk !! s) as [row|] eqn:Hrow; [|done]. simpl in H.
  case_decide; [|done]. simplify_eq.
  rewrite list_lookup_insert_eq by (by eapply lookup_lt_Some). simpl.
  by apply list_lookup_insert_eq.
Qed.

Lemma S_get_set_ne Sk s t v Sk' s' t' :
  Embedding.S_set Sk s t v = Some Sk' → s' ≠ s ∨ t' ≠ t →
  Embedding.S_get Sk' s' t' = Embedding.S_get Sk s' t'.
Proof.
  unfold Embedding.S_set, Embedding.S_get. intros H Hne.
  destruct (Sk !! s) as [row|] eqn:Hrow; [|done]. simpl in H.
  case_decide; [|done]. simplify_eq.
  destruct (decide (s' = s)) as [->|Hs].
  - rewrite list_lookup_insert_eq by (by eapply lookup_lt_Some). rewrite Hrow. simpl.
    apply list_lookup_insert_ne. destruct Hne; congruence.
  - by rewrite list_lookup_insert_ne.
Qed.

Lemma S_set_is_Some Sk s t v row :
  Sk !! s = Some row → t < length row → is_Some (Embedding.S_set Sk s t v).
Proof.
  intros Hrow Ht. unfold Embedding.S_set. rewrite Hrow. simpl.
  by rewrite decide_True.
Qed.

Lemma S_set_None_student Sk s t v :
  length Sk ≤ s → Embedding.S_set Sk s t v = None.
Proof.
  intros Hs. unfold Embedding.S_set. by rewrite (lookup_ge_None_2 Sk s Hs).
Qed.

Lemma S_set_None_timestep Sk s t v row :
  Sk !! s = Some row → length row ≤ t → Embedding.S_set Sk s t v = None.
Proof.
  intros Hrow Ht. unfold Embedding.S_set. rewrite Hrow. simpl.
  rewrite decide_False; [done|lia].
Qed.

Lemma S_set_lengths Sk s t v Sk' :
  Embedding.S_set Sk s t v = Some Sk' →
  length Sk' = length Sk
  ∧ ∀ s' row', Sk' !! s' = Some row' →
      ∃ row, Sk !! s' = Some row ∧ length row' = length row.
Proof.
  unfold Embedding.S_set. intros H.
  destruct (Sk !! s) as [row|] eqn:Hrow; [|done]. simpl in H.
  case_decide; [|done]. simplify_eq. split; [apply length_insert|].
  intros s' row' Hrow'. destruct (decide (s' = s)) as [->|Hs].
  - rewrite list_lookup_insert_eq in Hrow' by (by eapply lookup_lt_Some).
    simplify_eq. exists row. by rewrite length_insert.
  - rewrite list_lookup_insert_ne in Hrow' by done. eauto.
Qed.

End SkillArrayFacts.

Section ShuffleFacts.
Import Rand.
Context (rng : Rng).

Lemma swap_Permutation {A} (l : list A) (i j : nat) : swap l i j ≡ₚ l.
Proof.
  unfold swap. destruct (l !! i) as [xi|] eqn:Hi; [|done].
  destruct (l !! j) as [xj|] eqn:Hj; [|done].
  by apply Permutation_insert_swap.
Qed.

Lemma shuffle_steps_Permutation {A} (idxs : list nat) (l : list A) (σ : RngState) :
  (foldl (λ '(x, σ) i, let '(j, σ) := randbelow rng (i + 1) σ in (swap x i j, σ))
         (l, σ) idxs).1 ≡ₚ l.
Proof.
  revert l σ. induction idxs as [|i idxs IH]; intros l σ; [done|]. simpl.
  rewrite IH. apply swap_Permutation.
Qed.

Lemma random_shuffle_Permutation {A} (l : list A) (σ : RngState) :
  (random_shuffle rng l σ).1 ≡ₚ l.
Proof. apply shuffle_steps_Permutation. Qed.

(** A shuffle draws one random integer for each index it visits, and
    nothing else. *)
Lemma shuffle_steps_draws {A} (idxs : list nat) (l : list A) (σ : RngState) :
  py_random_pos
    (foldl (λ '(x, σ) i, let '(j, σ) := randbelow rng (i + 1) σ in (swap x i j, σ))
           (l, σ) idxs).2 = py_random_pos σ
  ∧ py_randbits_pos
      (foldl (λ '(x, σ) i, let '(j, σ) := randbelow rng (i + 1) σ in (swap x i j, σ))
             (l, σ) idxs).2 = py_randbits_pos σ + length idxs.
Proof.
  revert l σ. induction idxs as [|i idxs IH]; intros l σ; [simpl; lia|].
  cbn [foldl]. unfold randbelow at 2 4. rewrite !(proj1 (IH _ _)), !(proj2 (IH _ _)).
  simpl. lia.
Qed.

Lemma random_shuffle_draws {A} (l : list A) (σ : RngState) :
  py_random_pos (random_shuffle rng l σ).2 = py_random_pos σ
  ∧ py_randbits_pos (random_shuffle rng l σ).2 = py_randbits_pos σ + (length l - 1).
Proof.
  unfold random_shuffle.
  destruct (shuffle_steps_draws (reverse (seq 1 (length l - 1))) l σ) as [H1 H2].
  split; [exact H1|]. rewrite H2. by rewrite length_reverse, length_seq.
Qed.

End ShuffleFacts.

Section SamplingFacts.
Import DataTools Rand.
Context (rng : Rng) (g : Embedding.Grid) (ns k : nat).
Context (assessment_loc_of_idx lesson_loc_of_idx : nat → list nat).
Context (a00 : nat).
Context (Hg00 : Embedding.assessment_idx_of_loc g !! (0, 0) = Some a00).
Context (HgA : length (Embedding.A g) = Embedding.num_assessments).
Context (Ha00 : a00 < Embedding.num_assessments).

(** A move [(i, j)] from the grid point [(x, y)] that stays on the grid. *)
Definition lesson_possible (x y i j : nat) : Prop :=
  (i = 0 ∧ j = 1 ∧ x < Embedding.grid_size ∧ y < Embedding.grid_size - 1)
  ∨ (i = 1 ∧ j = 0 ∧ x < Embedding.grid_size - 1 ∧ y < Embedding.grid_size).

Context (Hlessons : ∀ x y i j, lesson_possible x y i j →
  ∃ l lv, Embedding.lesson_idx_of_loc g !! (x, y, i, j) = Some l
        ∧ Embedding.L g !! l = Some lv).

(** The skill of a student at the grid point [(x, y)]. *)
Definition position (x y : nat) : list R :=
  [(INR x * Embedding.cell_size)%R; (INR y * Embedding.cell_size)%R].

Context (Hmoves : ∀ x y i j l, lesson_possible x y i j →
  Embedding.lesson_idx_of_loc g !! (x, y, i, j) = Some l →
  Embedding.L g !! l = Some (position i j)).

Definition shape (Sk : list (list (list R))) : Prop :=
  length Sk = ns
  ∧ ∀ s row, Sk !! s = Some row →
      length row = Embedding.num_lesson_interactions_per_student.

Definition init_zero (Sk : list (list (list R))) : Prop :=
  ∀ s, s < ns →
    Embedding.S_get Sk s 0 = Some (replicate Embedding.embedding_dimension 0%R)
    ∧ Embedding.S_get Sk s 1 = Some (replicate Embedding.embedding_dimension 0%R).

(** The last timestep of [S] a row speaks about. *)
Definition ref_time (row : Ixn) : nat :=
  match module_type row with
  | Lesson => timestep row + 1
  | Assessment => timestep row
  end.

(** The success probability of the draw that decides an outcome. *)
Definition threshold (a t : nat) (sv av : list R) : R :=
  if decide (a = a00 ∧ 2 ≤ t) then 0.1%R else Embedding.pass_likelihood sv av.

(** *** The places of the rows and of the random draws

    A student takes [num_steps] lessons, [len(steps)].  The rows one
    student adds to [data] are the first assessment, then each lesson with
    its [k] assessments. *)
Definition num_steps : nat := 2 * (Embedding.grid_size - 1).
Definition rows_per_student : nat := 1 + 2 * (Embedding.grid_size - 1) * (1 + k).

(** The index in [data] of the first assessment of student [s], of the
    student's [i]-th lesson and of the [c]-th assessment after it (all
    counted from 0). *)
Definition first_row (s : nat) : nat := s * rows_per_student.
Definition lesson_row (s i : nat) : nat := s * rows_per_student + 1 + i * (1 + k).
Definition step_row (s i c : nat) : nat := s * rows_per_student + 1 + i * (1 + k) + 1 + c.

(** The assessments after lessons, numbered through all students in the
    order of the loops. *)
Definition step_number (s i c : nat) : nat := (s * num_steps + i) * k + c.

(** The random integers drawn before the assessment number [N] picks its
    own: [len(steps) - 1] by each [random.shuffle] up to its student's, and
    one by each earlier assessment after a lesson.  The assessment it
    picks is [random.randint(0, num_assessments - 1)] of that integer. *)
Definition randbits_pos (N : nat) : nat :=
  (N / (num_steps * k) + 1) * (num_steps - 1) + N.
Definition step_assessment_idx (N : nat) : nat :=
  0 + py_randbits rng (randbits_pos N) `mod` (Embedding.num_assessments - 1 - 0 + 1).

(** The assessments before number [N] that fell on the assessment at
    [(0, 0)] and so called [random.random()] a second time. *)
Definition overrides_before (N : nat) : nat :=
  length (filter (λ N', a00 = step_assessment_idx N') (seq 0 N)).

(** The calls of [random.random()] made before the first assessment of
    student [s], and before the assessment number [N] of student [s] makes
    its first: one by each first assessment, one by each assessment after
    a lesson, and the second calls. *)
Definition first_draw (s : nat) : nat :=
  s + s * (num_steps * k) + overrides_before (s * (num_steps * k)).
Definition step_draw (s N : nat) : nat := s + 1 + N + overrides_before N.

(** What the final arrays and the random stream say about the row at index
    [n] of [data], a row of student [s]. *)
Definition facts (Sk : list (list (list R))) (s n : nat) (row : Ixn) : Prop :=
  student_id row = "S" +:+ pretty s
  ∧ match module_type row with
    | Lesson =>
        ∃ l sv lv,
          module_id row = Embedding.id_of_loc (lesson_loc_of_idx l)
          ∧ outcome row = None
          ∧ Embedding.S_get Sk s (timestep row) = Some sv
          ∧ Embedding.L g !! l = Some lv
          ∧ Embedding.S_get Sk s (timestep row + 1) = Some (zip_with Rplus sv lv)
    | Assessment =>
        ∃ a sv av j,
          module_id row = Embedding.id_of_loc (assessment_loc_of_idx a)
          ∧ Embedding.S_get Sk s (timestep row) = Some sv
          ∧ Embedding.A g !! a = Some av
          ∧ outcome row
            = Some (bool_decide (py_random rng j < threshold a (timestep row) sv av)%R)
          ∧ ((n = first_row s ∧ timestep row = 1 ∧ a = a00 ∧ j = first_draw s)
             ∨ ∃ i c,
                 i < num_steps ∧ c < k ∧ n = step_row s i c ∧ timestep row = i + 2
                 ∧ a = step_assessment_idx (step_number s i c)
                 ∧ j = step_draw s (step_number s i c)
                       + (if decide (a00 = a) then 1 else 0))
    end.

Definition rows_inv (Sk : list (list (list R))) (s τ : nat) (rows : list Ixn) : Prop :=
  ∀ n row, rows !! n = Some row →
    1 ≤ timestep row < Embedding.num_lesson_interactions_per_student
    ∧ ∃ s', s' < ns ∧ facts Sk s' n row ∧ (s' < s ∨ (s' = s ∧ ref_time row ≤ τ)).

(** The students before [s] have walked to the far corner of the grid. *)
Definition finished (s : nat) (Sk : list (list (list R))) : Prop :=
  ∀ s', s' < s →
    Embedding.S_get Sk s' (Embedding.num_lesson_interactions_per_student - 1)
    = Some (position (Embedding.grid_size - 1) (Embedding.grid_size - 1)).

(** Student [s] stands at [(xx, yy)] at timestep [τ]. *)
Definition walk_inv (s τ xx yy : nat) (Sk : list (list (list R))) : Prop :=
  finished s Sk ∧ Embedding.S_get Sk s τ = Some (position xx yy).

(** The numbers of calls of [random.random()] and of random integers
    drawn so far. *)
Definition rng_at (draws randbits : nat) (σ : RngState) : Prop :=
  py_random_pos σ = draws ∧ py_randbits_pos σ = randbits.

(** Inside the loops of student [s]: [n] rows are written and [N]
    assessments after lessons are done. *)
Definition StepInv (s τ xx yy n N : nat) (st : Embedding.State) : Prop :=
  Embedding.t st = τ ∧ Embedding.x st = xx ∧ Embedding.y st = yy
  ∧ shape (Embedding.S st) ∧ init_zero (Embedding.S st)
  ∧ walk_inv s τ xx yy (Embedding.S st)
  ∧ rng_at (step_draw s N) ((s + 1) * (num_steps - 1) + N) (Embedding.rng_state st)
  ∧ length (Embedding.data st) = n
  ∧ rows_inv (Embedding.S st) s τ (Embedding.data st).

(** Before the first assessment of student [s], with [randbits] random
    integers drawn. *)
Definition StudentInv (s randbits : nat) (st : Embedding.State) : Prop :=
  shape (Embedding.S st) ∧ init_zero (Embedding.S st)
  ∧ finished s (Embedding.S st)
  ∧ rng_at (first_draw s) randbits (Embedding.rng_state st)
  ∧ length (Embedding.data st) = s * rows_per_student
  ∧ rows_inv (Embedding.S st) s 0 (Embedding.data st).

Definition OuterInv (s : nat) (st : Embedding.State) : Prop :=
  StudentInv s (s * (num_steps - 1) + s * (num_steps * k)) st.

Lemma step_number_div (s i c : nat) :
  i < num_steps → c < k → step_number s i c / (num_steps * k) = s.
Proof.
  clear Hg00 HgA Ha00 Hlessons Hmoves.
  intros Hi Hc. unfold step_number.
  replace ((s * num_steps + i) * k + c) with (s * (num_steps * k) + (i * k + c)) by lia.
  assert (i * k + c < num_steps * k) as Hlt.
  { apply Nat.lt_le_trans with (i * k + k); [lia|].
    replace (i * k + k) with ((i + 1) * k) by lia.
    apply Nat.mul_le_mono_r. lia. }
  rewrite Nat.div_add_l by lia. rewrite (Nat.div_small _ _ Hlt). lia.
Qed.

Lemma randbits_pos_step (s i c : nat) :
  i < num_steps → c < k →
  randbits_pos (step_number s i c) = (s + 1) * (num_steps - 1) + step_number s i c.
Proof.
  clear Hg00 HgA Ha00 Hlessons Hmoves.
  intros Hi Hc. unfold randbits_pos. by rewrite step_number_div.
Qed.

Lemma overrides_before_S (N : nat) :
  overrides_before (N + 1)
  = overrides_before N + (if decide (a00 = step_assessment_idx N) then 1 else 0).
Proof.
  unfold overrides_before. rewrite Nat.add_1_r, seq_S, filter_app, length_app.
  f_equal. simpl. case_decide.
  - by rewrite filter_cons_True.
  - by rewrite filter_cons_False.
Qed.

Lemma position_origin : replicate Embedding.embedding_dimension 0%R = position 0 0.
Proof. unfold position. simpl. f_equal; [|f_equal]; lra. Qed.

Lemma position_add (x y i j : nat) :
  zip_with Rplus (position x y) (position i j) = position (x + i) (y + j).
Proof. unfold position. simpl. rewrite !plus_INR. f_equal; [|f_equal]; lra. Qed.

Lemma shape_get Sk s t :
  shape Sk → s < ns → t < Embedding.num_lesson_interactions_per_student →
  is_Some (Embedding.S_get Sk s t).
Proof.
  intros [Hlen Hrows] Hs Ht. unfold Embedding.S_get.
  destruct (lookup_lt_is_Some_2 Sk s) as [row Hrow]; [lia|].
  rewrite Hrow. simpl. apply lookup_lt_is_Some_2. by rewrite (Hrows s row).
Qed.

Lemma facts_stable Sk Sk' s τ v s' n row :
  Embedding.S_set Sk s (τ + 1) v = Some Sk' →
  s' ≠ s ∨ ref_time row ≤ τ →
  facts Sk s' n row → facts Sk' s' n row.
Proof.
  intros Hset Hfar [Hid Hrow]. split; [done|]. unfold ref_time in Hfar.
  destruct (module_type row).
  - destruct Hrow as (a & sv & av & j & ? & Hget & ? & ? & ?).
    exists a, sv, av, j. split; [done|]. split; [|done].
    rewrite (S_get_set_ne _ _ _ _ _ _ _ Hset); [done|]. lia.
  - destruct Hrow as (l & sv & lv & ? & ? & Hget & ? & Hget').
    exists l, sv, lv. split; [done|]. split; [done|]. split; [|split; [done|]].
    + rewrite (S_get_set_ne _ _ _ _ _ _ _ Hset); [done|]. lia.
    + rewrite (S_get_set_ne _ _ _ _ _ _ _ Hset); [done|]. lia.
Qed.

Lemma rows_inv_mono Sk s τ τ' rows :
  τ ≤ τ' → rows_inv Sk s τ rows → rows_inv Sk s τ' rows.
Proof.
  intros Hτ H n row Hrow. destruct (H n row Hrow) as (? & s' & ? & ? & Hb).
  split; [done|]. exists s'. split; [done|]. split; [done|]. lia.
Qed.

Lemma rows_inv_next Sk s τ rows :
  rows_inv Sk s τ rows → rows_inv Sk (s + 1) 0 rows.
Proof.
  intros H n row Hrow. destruct (H n row Hrow) as (? & s' & ? & ? & Hb).
  split; [done|]. exists s'. split; [done|]. split; [done|]. lia.
Qed.

Lemma rows_inv_snoc Sk s τ rows row :
  rows_inv Sk s τ rows →
  1 ≤ timestep row < Embedding.num_lesson_interactions_per_student →
  s < ns → facts Sk s (length rows) row →
  ref_time row ≤ τ → rows_inv Sk s τ (rows ++ [row]).
Proof.
  intros H Ht Hs Hf Hr n row' Hrow'.
  apply lookup_app_Some in Hrow' as [Hrow'|[Hn Hrow']].
  - by apply H.
  - apply list_lookup_singleton_Some in Hrow' as [Hn' <-].
    replace n with (length rows) by lia.
    split; [done|]. exists s. split; [done|]. split; [done|]. by right.
Qed.

Lemma StepInv_eq s τ τ' xx yy n n' N N' st :
  τ = τ' → n = n' → N = N' →
  StepInv s τ xx yy n N st → StepInv s τ' xx yy n' N' st.
Proof. by intros -> -> ->. Qed.

(** The draws are numbered in the order the loops make them. *)
Lemma first_draw_0 : first_draw 0 = 0.
Proof. reflexivity. Qed.

Lemma step_draw_first (s : nat) : step_draw s (step_number s 0 0) = first_draw s + 1.
Proof.
  clear Hg00 HgA Ha00 Hlessons Hmoves.
  unfold step_draw, first_draw, step_number.
  replace ((s * num_steps + 0) * k + 0) with (s * (num_steps * k)) by lia. lia.
Qed.

Lemma step_draw_S (s N : nat) :
  step_draw s (N + 1)
  = step_draw s N + 1 + (if decide (a00 = step_assessment_idx N) then 1 else 0).
Proof.
  clear Hg00 HgA Ha00 Hlessons Hmoves.
  unfold step_draw. rewrite overrides_before_S. lia.
Qed.

Lemma first_draw_S (s : nat) :
  first_draw (s + 1) = step_draw s (step_number s num_steps 0).
Proof.
  clear Hg00 HgA Ha00 Hlessons Hmoves.
  unfold step_draw, first_draw, step_number.
  replace ((s * num_steps + num_steps) * k + 0) with ((s + 1) * (num_steps * k)) by lia.
  lia.
Qed.

Lemma step_assessment_triple s i c xx yy :
  s < ns → i < num_steps → c < k →
  triple (StepInv s (i + 2) xx yy (step_row s i c) (step_number s i c))
    (Embedding.step_assessment rng g assessment_loc_of_idx s ("S" +:+ pretty s))
    (λ _, StepInv s (i + 2) xx yy (step_row s i c + 1) (step_number s i c + 1)).
Proof.
  intros Hs Hi Hc st
    (Ht & Hx & Hy & Hshape & Hzero & Hwalk & [Hdraws Hbits] & Hlen & Hrows).
  assert (i + 2 < Embedding.num_lesson_interactions_per_student) as HT.
  { change Embedding.num_lesson_interactions_per_student with 10.
    unfold num_steps in Hi. change (Embedding.grid_size - 1) with 4 in Hi. lia. }
  destruct (shape_get _ s (i + 2) Hshape Hs HT) as [sv Hsv].
  rewrite <- (randbits_pos_step s i c Hi Hc) in Hbits.
  set (N := step_number s i c) in *.
  set (a := step_assessment_idx N).
  assert (a < Embedding.num_assessments) as Ha.
  { unfold a, step_assessment_idx.
    change (Embedding.num_assessments - 1 - 0 + 1) with 25.
    change Embedding.num_assessments with 25. rewrite Nat.add_0_l.
    apply Nat.mod_upper_bound. lia. }
  destruct (lookup_lt_is_Some_2 (Embedding.A g) a) as [av Hav]; [lia|].
  set (j := step_draw s N + (if decide (a00 = a) then 1 else 0)).
  assert (Embedding.step_assessment rng g assessment_loc_of_idx s
            ("S" +:+ pretty s) st
          = Some (tt, Embedding.mkState
              (mkRngState (S j) (S (randbits_pos N))
                 (np_normal_pos (Embedding.rng_state st))
                 (np_random_pos (Embedding.rng_state st)))
              (Embedding.S st)
              (Embedding.data st ++
                 [mkIxn ("S" +:+ pretty s)
                    (Embedding.id_of_loc (assessment_loc_of_idx a)) Assessment
                    (Some (bool_decide (py_random rng j < threshold a (i + 2) sv av)%R))
                    (i + 2)])
              (Embedding.x st) (Embedding.y st) (Embedding.t st))) as Hrun.
  { unfold Embedding.step_assessment, mbind, gen_bind, gets, Embedding.draw, item,
      Embedding.append, modify, random_randint, randbelow, random_random, mret, gen_ret,
      raise.
    cbn [fst snd py_random_pos py_randbits_pos np_normal_pos np_random_pos
         Embedding.rng_state Embedding.S Embedding.data Embedding.x Embedding.y
         Embedding.t].
    rewrite Ht, Hbits, Hdraws. fold (step_assessment_idx N). fold a.
    rewrite Hsv. rewrite Hav. rewrite Hg00.
    unfold threshold, j. destruct (decide (a00 = a)) as [Heq|Hne].
    - rewrite decide_True by (split; [done|lia]).
      replace (step_draw s N + 1) with (S (step_draw s N)) by lia. reflexivity.
    - rewrite decide_False by (intros [? _]; congruence).
      rewrite Nat.add_0_r. reflexivity. }
  eexists tt, _. split; [exact Hrun|].
  split; [done|]. split; [done|]. split; [done|]. split; [done|]. split; [done|].
  split; [exact Hwalk|].
  split.
  { split; cbn [py_random_pos py_randbits_pos Embedding.rng_state].
    - rewrite step_draw_S. fold a. unfold j. lia.
    - unfold N. rewrite (randbits_pos_step s i c Hi Hc). lia. }
  split; [simpl; rewrite length_app, Hlen; reflexivity|].
  simpl. apply rows_inv_snoc; [done|simpl; lia|done| |unfold ref_time; simpl; lia].
  split; [done|]. simpl. exists a, sv, av, j.
  split; [done|]. split; [done|]. split; [done|]. split; [done|].
  right. exists i, c. by rewrite Hlen.
Qed.

Lemma first_assessment_triple s :
  s < ns →
  triple (StudentInv s ((s + 1) * (num_steps - 1) + step_number s 0 0))
    (Embedding.first_assessment rng g assessment_loc_of_idx s ("S" +:+ pretty s))
    (λ _, StepInv s 1 0 0 (first_row s + 1) (step_number s 0 0)).
Proof.
  intros Hs st (Hshape & Hzero & Hfin & [Hdraws Hbits] & Hlen & Hrows).
  destruct (Hzero s Hs) as [_ Hsv].
  destruct (lookup_lt_is_Some_2 (Embedding.A g) a00) as [av Hav]; [lia|].
  eexists tt, _. split.
  - unfold Embedding.first_assessment, mbind, gen_bind, gets, Embedding.draw, item,
      Embedding.append, modify, random_random, mret, gen_ret, raise.
    simpl. rewrite Hg00. simpl. rewrite Hsv. simpl. rewrite Hav. reflexivity.
  - unfold StepInv. simpl. repeat (split; [done|]).
    split; [split; [done|by rewrite Hsv, position_origin]|].
    split; [split; [rewrite step_draw_first; cbn [py_random_pos]; lia|done]|].
    split; [rewrite length_app, Hlen; reflexivity|].

    apply rows_inv_snoc; [apply (rows_inv_mono _ _ 0); [lia|done]
                         |simpl; change Embedding.num_lesson_interactions_per_student with 10; lia
                         |done| |unfold ref_time; simpl; lia].
    split; [done|]. simpl. eexists a00, _, av, _. split; [done|]. split; [exact Hsv|].
    split; [done|]. split.
    + unfold threshold. rewrite decide_False by lia. rewrite Hdraws. reflexivity.
    + left. by rewrite Hlen.
Qed.

Lemma lesson_step_triple s istep xx yy i j :
  s < ns → istep < num_steps → lesson_possible xx yy i j →
  triple (StepInv s (istep + 1) xx yy (lesson_row s istep) (step_number s istep 0))
    (Embedding.lesson_step rng g k assessment_loc_of_idx lesson_loc_of_idx s
       ("S" +:+ pretty s) (i, j))
    (λ _, StepInv s (istep + 1 + 1) (xx + i) (yy + j) (lesson_row s (istep + 1))
            (step_number s (istep + 1) 0)).
Proof.
  intros Hs Histep Hmove st
    (Ht & Hx & Hy & Hshape & Hzero & [Hfin Hsv] & Hrng & Hdata & Hrows).
  set (τ := istep + 1) in *.
  assert (τ + 1 < Embedding.num_lesson_interactions_per_student) as HT.
  { change Embedding.num_lesson_interactions_per_student with 10.
    unfold num_steps in Histep. change (Embedding.grid_size - 1) with 4 in Histep.
    unfold τ. lia. }
  destruct (Hlessons xx yy i j Hmove) as (l & lv & Hl & Hlv).
  assert (lv = position i j) as Hlveq.
  { pose proof (Hmoves xx yy i j l Hmove Hl) as Hlv'. congruence. }
  remember (position xx yy) as sv eqn:Hsveq.
  destruct Hshape as [Hlen Hrowlen].
  destruct (lookup_lt_is_Some_2 (Embedding.S st) s) as [srow Hsrow]; [lia|].
  destruct (S_set_is_Some (Embedding.S st) s (τ + 1) (zip_with Rplus sv lv) srow Hsrow)
    as [Sk' Hset].
  { by rewrite (Hrowlen s srow). }
  set (row := mkIxn ("S" +:+ pretty s) (Embedding.id_of_loc (lesson_loc_of_idx l))
                Lesson None τ).
  set (st1 := Embedding.mkState (Embedding.rng_state st) Sk'
                (Embedding.data st ++ [row]) (xx + i) (yy + j) (τ + 1)).
  assert (StepInv s (istep + 2) (xx + i) (yy + j) (step_row s istep 0)
            (step_number s istep 0) st1) as Hinv1.
  { split; [unfold τ; simpl; lia|]. split; [done|]. split; [done|]. simpl.
    destruct (S_set_lengths _ _ _ _ _ Hset) as [Hlen' Hrows'].
    replace (istep + 2) with (τ + 1) by (unfold τ; lia).
    split; [|split; [|split; [|split; [|split]]]].
    - split; [lia|]. intros s' row' Hrow'.
      destruct (Hrows' s' row' Hrow') as (row0 & Hrow0 & ->). by eapply Hrowlen.
    - intros s' Hs'. destruct (Hzero s' Hs') as [H0 H1].
      rewrite !(S_get_set_ne _ _ _ _ _ _ _ Hset) by lia. done.
    - split.
      + intros s' Hs'. rewrite (S_get_set_ne _ _ _ _ _ _ _ Hset) by lia. by apply Hfin.
      + rewrite (S_get_set_eq _ _ _ _ _ Hset). by rewrite Hsveq, Hlveq, position_add.
    - exact Hrng.
    - rewrite length_app, Hdata. unfold step_row, lesson_row. simpl. lia.
    - intros n row' [Hrow'|[Hn Hrow']]%lookup_app_Some.
      + destruct (Hrows n row' Hrow') as (? & s' & ? & Hf & Hb).
        split; [done|]. exists s'. split; [done|]. split.
        * eapply facts_stable; [exact Hset| |exact Hf]. lia.
        * lia.
      + apply list_lookup_singleton_Some in Hrow' as [_ <-].
        split; [simpl; unfold τ; lia|]. exists s. split; [done|]. split.
        * split; [done|]. simpl. exists l, sv, lv.
          split; [done|]. split; [done|]. split.
          { rewrite (S_get_set_ne _ _ _ _ _ _ _ Hset) by lia. done. }
          split; [done|]. by apply (S_get_set_eq _ _ _ _ _ Hset).
        * right. split; [done|]. unfold ref_time. simpl. lia. }
  pose proof (for_each_triple
    (λ m, StepInv s (istep + 2) (xx + i) (yy + j) (step_row s istep m)
            (step_number s istep m)) (seq 0 k)
    (λ _, Embedding.step_assessment rng g assessment_loc_of_idx s ("S" +:+ pretty s)))
    as Hloop.
  cbv beta in Hloop. rewrite length_seq in Hloop.
  match type of Hloop with ?P → _ => assert P as Hbody end.
  { intros m ? [_ Hm]%lookup_seq. intros st' Hst'.
    destruct (step_assessment_triple s istep m (xx + i) (yy + j) Hs Histep Hm st' Hst')
      as (u & st'' & Hrun'' & Hinv'').
    exists u, st''. split; [done|].
    eapply StepInv_eq; [| | |exact Hinv'']; [done|unfold step_row; lia|].
    unfold step_number; lia. }
  destruct (Hloop Hbody st1 Hinv1) as ([] & st2 & Hrun2 & Hinv2).
  exists tt, st2. split.
  - unfold Embedding.lesson_step, mbind, gen_bind, gets, item, Embedding.append, modify,
      mret, gen_ret, raise.
    simpl. rewrite Hx, Hy, Ht, Hl. simpl. rewrite Hsv. simpl. rewrite Hlv. simpl.
    rewrite Hset. exact Hrun2.
  - eapply StepInv_eq; [| | |exact Hinv2]; [unfold τ; lia|unfold step_row, lesson_row; lia|].
    unfold step_number; lia.
Qed.

(** The list that [random.shuffle] permutes. *)
Definition base_steps : list (nat * nat) :=
  replicate (Embedding.grid_size - 1) (0, 1) ++ replicate (Embedding.grid_size - 1) (1, 0).

Lemma steps_bounds steps n i j :
  steps ≡ₚ base_steps → steps !! n = Some (i, j) →
  n < num_steps
  ∧ lesson_possible (sum_list_with fst (take n steps))
                    (sum_list_with snd (take n steps)) i j.
Proof.
  intros Hperm Hn.
  assert (length steps = 8) as Hlen by (rewrite Hperm; reflexivity).
  assert (sum_list_with fst steps = 4) as Hx by (rewrite Hperm; reflexivity).
  assert (sum_list_with snd steps = 4) as Hy by (rewrite Hperm; reflexivity).
  assert ((i, j) ∈ base_steps) as Hin
    by (rewrite <- Hperm; by eapply list_elem_of_lookup_2).
  apply lookup_lt_Some in Hn as Hlt.
  rewrite <- (take_drop_middle steps n (i, j) Hn) in Hx, Hy.
  rewrite !sum_list_with_app in Hx, Hy. simpl in Hx, Hy.
  split; [unfold num_steps; change Embedding.grid_size with 5; lia|].
  unfold lesson_possible. change Embedding.grid_size with 5.
  apply elem_of_app in Hin as [Hin|Hin];
    apply elem_of_replicate in Hin as [[= -> ->] _]; lia.
Qed.

Lemma shuffle_steps_triple s :
  triple (OuterInv s)
    (Embedding.draw (random_shuffle rng base_steps))
    (λ steps st, steps ≡ₚ base_steps
                 ∧ StudentInv s ((s + 1) * (num_steps - 1) + step_number s 0 0) st).
Proof.
  intros st (Hshape & Hzero & Hfin & [Hdraws Hbits] & Hlen & Hrows). unfold Embedding.draw.
  pose proof (random_shuffle_Permutation rng base_steps (Embedding.rng_state st)) as Hp.
  pose proof (random_shuffle_draws rng base_steps (Embedding.rng_state st)) as [Hd Hb].
  destruct (random_shuffle rng base_steps (Embedding.rng_state st)) as [steps σ'].
  eexists steps, _. split; [reflexivity|]. split; [exact Hp|].
  split; [done|]. split; [done|]. split; [done|]. split; [|done].
  cbn [fst snd py_random_pos py_randbits_pos Embedding.rng_state] in *.
  split; [congruence|]. rewrite Hb, Hbits.
  change (length base_steps - 1) with 7. unfold step_number, num_steps.
  change (Embedding.grid_size - 1) with 4. lia.
Qed.

Lemma sample_student_triple s :
  s < ns →
  triple (OuterInv s)
    (Embedding.sample_student rng g k assessment_loc_of_idx lesson_loc_of_idx s)
    (λ _, OuterInv (s + 1)).
Proof.
  intros Hs. unfold Embedding.sample_student.
  apply (triple_bind _ _
    (λ steps st, steps ≡ₚ base_steps
                 ∧ StudentInv s ((s + 1) * (num_steps - 1) + step_number s 0 0) st));
    [apply shuffle_steps_triple|].
  intros steps.
  apply (triple_bind _ _
    (λ _ st, steps ≡ₚ base_steps
             ∧ StepInv s 1 0 0 (first_row s + 1) (step_number s 0 0) st)).
  { intros st [Hperm Hinv].
    destruct (first_assessment_triple s Hs st Hinv) as (u & st' & Hrun & Hinv').
    by exists u, st'. }
  intros _ st [Hperm Hinv].
  pose proof (for_each_triple
    (λ n, StepInv s (n + 1) (sum_list_with fst (take n steps))
                  (sum_list_with snd (take n steps))
                  (lesson_row s n) (step_number s n 0))
    steps
    (Embedding.lesson_step rng g k assessment_loc_of_idx lesson_loc_of_idx s
       ("S" +:+ pretty s))) as Hloop.
  cbv beta in Hloop.
  match type of Hloop with ?P → _ => assert P as Hbody end.
  { intros n [i j] Hn. destruct (steps_bounds steps n i j Hperm Hn) as [Hlt Hmove].
    rewrite (take_S_r steps n (i, j) Hn), !sum_list_with_app.
    cbn [sum_list_with fst snd]. rewrite !Nat.add_0_r.
    replace (S n) with (n + 1) by lia.
    by apply (lesson_step_triple s n). }
  assert (StepInv s (0 + 1) (sum_list_with fst (take 0 steps))
            (sum_list_with snd (take 0 steps)) (lesson_row s 0) (step_number s 0 0) st)
    as Hinv0.
  { eapply StepInv_eq; [| | |exact Hinv]; [done|unfold first_row, lesson_row; lia|done]. }
  destruct (Hloop Hbody st Hinv0) as (u & st' & Hrun & Hinv').
  exists u, st'. split; [exact Hrun|].
  destruct Hinv' as (_ & _ & _ & Hshape & Hzero & [Hfin Hpos] & [Hdraws Hbits] & Hlen & Hrows).
  assert (length steps = 8) as Hsteps by (rewrite Hperm; reflexivity).
  rewrite Hsteps in Hpos, Hdraws, Hbits, Hlen.
  split; [done|]. split; [done|].
  split; [|split; [|split; [|by eapply rows_inv_next]]].
  - intros s' Hs'. destruct (decide (s' = s)) as [->|Hne]; [|apply Hfin; lia].
    rewrite take_ge in Hpos by lia.
    assert (sum_list_with fst steps = 4) as Hx by (rewrite Hperm; reflexivity).
    assert (sum_list_with snd steps = 4) as Hy by (rewrite Hperm; reflexivity).
    rewrite Hx, Hy in Hpos. exact Hpos.
  - split; [by rewrite first_draw_S|].
    rewrite Hbits. unfold step_number, num_steps.
    change (Embedding.grid_size - 1) with 4. lia.
  - rewrite Hlen. unfold lesson_row, rows_per_student.
    change (Embedding.grid_size - 1) with 4. lia.
Qed.

Lemma sample_interactions_spec :
  ∃ Sk data,
    Embedding.sample_interactions rng g ns k assessment_loc_of_idx lesson_loc_of_idx
    = Some (Sk, data)
    ∧ shape Sk ∧ init_zero Sk ∧ finished ns Sk
    ∧ length data = ns * rows_per_student
    ∧ ∀ n row, data !! n = Some row →
        1 ≤ timestep row < Embedding.num_lesson_interactions_per_student
        ∧ ∃ s, s < ns ∧ facts Sk s n row.
Proof.
  pose proof (for_each_triple OuterInv (seq 0 ns)
    (Embedding.sample_student rng g k assessment_loc_of_idx lesson_loc_of_idx)) as Hloop.
  match type of Hloop with ?P → _ => assert P as Hbody end.
  { intros i s [-> Hi]%lookup_seq.
    replace (S i) with (0 + i + 1) by lia. apply sample_student_triple. lia. }
  set (S0 := replicate ns (Embedding.zeros Embedding.num_lesson_interactions_per_student
                             Embedding.embedding_dimension)).
  assert (OuterInv 0 (Embedding.mkState seed S0 [] 0 0 0)) as Hinit.
  { split; [|split; [|split; [|split; [|split]]]].
    - split; [apply length_replicate|].
      by intros s row [-> _]%lookup_replicate.
    - intros s Hs. unfold Embedding.S_get, S0. simpl.
      rewrite lookup_replicate_2 by done. done.
    - intros s' Hs'. lia.
    - split; reflexivity.
    - reflexivity.
    - intros n row Hrow. by destruct n. }
  destruct (Hloop Hbody _ Hinit)
    as (u & st & Hrun & Hshape & Hzero & Hfin & _ & Hlen & Hrows).
  rewrite length_seq in Hlen, Hfin.
  exists (Embedding.S st), (Embedding.data st). split.
  { unfold Embedding.sample_interactions. fold S0. rewrite Hrun. reflexivity. }
  split; [done|]. split; [done|]. split; [done|]. split; [done|].
  intros n row Hrow. destruct (Hrows n row Hrow) as (Ht & s & Hs & Hf & _).
  split; [done|]. by exists s.
Qed.
End SamplingFacts.


Section NotebookFacts.
Import DataTools Rand.

Lemma synthetic_embedding_lessons x y i j :
  lesson_possible x y i j →
  ∃ l lv, Embedding.lesson_idx_of_loc Embedding.synthetic_embedding !! (x, y, i, j) = Some l
        ∧ Embedding.L Embedding.synthetic_embedding !! l = Some lv.
Proof.
  intros Hmove.
  assert (∃ l, Embedding.lesson_idx_of_loc Embedding.synthetic_embedding !! (x, y, i, j)
               = Some l ∧ l < Embedding.num_lessons) as (l & Hl & Hlt).
  { unfold lesson_possible in Hmove. change Embedding.grid_size with 5 in Hmove.
    destruct Hmove as [(-> & -> & Hx & Hy)|(-> & -> & Hx & Hy)];
      do 5 (destruct x as [|x];
            [do 5 (destruct y as [|y];
                   [first [exfalso; lia
                          |eexists; split; [vm_compute; reflexivity|vm_compute; lia]]|]);
             exfalso; lia|]);
      lia. }
  destruct (lookup_lt_is_Some_2 (Embedding.L Embedding.synthetic_embedding) l)
    as [lv Hlv]; [|by exists l, lv].
  destruct synthetic_embedding_shape as (_ & HL & _).
  apply (f_equal length) in HL. rewrite length_fmap, length_replicate in HL.
  by rewrite HL.
Qed.

Lemma synthetic_embedding_moves x y i j l :
  lesson_possible x y i j →
  Embedding.lesson_idx_of_loc Embedding.synthetic_embedding !! (x, y, i, j) = Some l →
  Embedding.L Embedding.synthetic_embedding !! l = Some (position i j).
Proof.
  intros Hmove. unfold lesson_possible in Hmove.
  change Embedding.grid_size with 5 in Hmove.
  destruct Hmove as [(-> & -> & Hx & Hy)|(-> & -> & Hx & Hy)];
    do 5 (destruct x as [|x];
          [do 5 (destruct y as [|y];
                 [first [exfalso; lia
                        |intros Hl; vm_compute in Hl; injection Hl as <-; reflexivity]|]);
           exfalso; lia|]);
    lia.
Qed.

Lemma synthetic_interactions_spec (rng : Rng) (ns k : nat)
    (assessment_loc_of_idx lesson_loc_of_idx : nat → list nat) :
  ∃ Sk data,
    Embedding.sample_interactions rng Embedding.synthetic_embedding ns k
      assessment_loc_of_idx lesson_loc_of_idx
    = Some (Sk, data)
    ∧ shape ns Sk ∧ init_zero ns Sk ∧ finished ns Sk
    ∧ length data = ns * rows_per_student k
    ∧ ∀ n row, data !! n = Some row →
        1 ≤ timestep row < Embedding.num_lesson_interactions_per_student
        ∧ ∃ s, s < ns
             ∧ facts rng Embedding.synthetic_embedding k assessment_loc_of_idx
                     lesson_loc_of_idx 0 Sk s n row.
Proof.
  destruct synthetic_embedding_shape as (HA & _ & _ & H00).
  apply (f_equal length) in HA. rewrite length_fmap, length_replicate in HA.
  exact (sample_interactions_spec rng Embedding.synthetic_embedding ns k
           assessment_loc_of_idx lesson_loc_of_idx 0 H00 HA
           ltac:(vm_compute; lia) synthetic_embedding_lessons
           synthetic_embedding_moves).
Qed.

End NotebookFacts.

(** ** The generated table *)

Section EmbeddingClaims.
Import DataTools Rand.

Lemma pass_likelihood_model (s a : list R) (student_bias assessment_bias : R) :
  Embedding.pass_likelihood s a
  = Embedding.assessment_pass_probability false s a student_bias assessment_bias.
Proof.
  unfold Embedding.pass_likelihood, Embedding.assessment_pass_probability, sigmoid.
  do 4 f_equal. lra.
Qed.

Lemma notebook_interactions_spec (rng : Rng)
    (assessment_loc_of_idx lesson_loc_of_idx : nat → list nat) :
  ∃ Sk data,
    Embedding.notebook_interactions rng assessment_loc_of_idx lesson_loc_of_idx
    = Some (Sk, data)
    ∧ length data
      = Embedding.num_students
        * rows_per_student Embedding.num_assessment_interactions_per_step
    ∧ init_zero Embedding.num_students Sk
    ∧ ∀ n row, data !! n = Some row →
        1 ≤ timestep row < Embedding.num_lesson_interactions_per_student
        ∧ ∃ s, s < Embedding.num_students
             ∧ facts rng Embedding.synthetic_embedding
                     Embedding.num_assessment_interactions_per_step
                     assessment_loc_of_idx lesson_loc_of_idx 0 Sk s n row.
Proof.
  destruct synthetic_embedding_shape as (HA & _ & _ & H00).
  apply (f_equal length) in HA. rewrite length_fmap, length_replicate in HA.
  destruct (sample_interactions_spec rng Embedding.synthetic_embedding
              Embedding.num_students Embedding.num_assessment_interactions_per_step
              assessment_loc_of_idx lesson_loc_of_idx 0 H00 HA
              ltac:(vm_compute; lia) synthetic_embedding_lessons
              synthetic_embedding_moves)
    as (Sk & data & Hrun & _ & Hzero & _ & Hlen & Hrows).
  exists Sk, data. split; [exact Hrun|]. split; [exact Hlen|].
  split; [exact Hzero|exact Hrows].
Qed.

(** The notebook's number of assessment interactions after each lesson. *)
Local Abbreviation per_step := Embedding.num_assessment_interactions_per_step.

(** C1: the scoring function of the embedding model is the sigmoid of
    [dot(s, a) / norm(a) - norm(a)] plus the two bias terms, which count as
    zero when bias is disabled.  In the table the generator produces, every
    assessment interaction is the first one of its student, on the
    assessment at grid location [(0, 0)] (index 0) at timestep 1, or the
    [c]-th one after the student's [i]-th lesson, at timestep [i + 2] on
    the assessment that [random.randint] picks.  Its outcome is one call of
    [random.random()] compared with this probability (without bias terms)
    at [S[s, :, t]] and [A[a, :]]: the call that follows all the calls of
    the interactions before it.  The exception are the interactions after
    a lesson that fall on the assessment at [(0, 0)]: they make that call
    and a second one, and the outcome is the second one compared with
    [0.1].  The last four parts say that the calls are numbered in this
    order, from 0. *)
Theorem generator_outcomes_bernoulli (rng : Rng)
    (assessment_loc_of_idx lesson_loc_of_idx : nat → list nat)
    (student_bias assessment_bias : R) :
  (∀ using_bias s a,
     Embedding.assessment_pass_probability using_bias s a student_bias assessment_bias
     = sigmoid (dot s a / norm a - norm a
                + (if using_bias then student_bias else 0)
                + (if using_bias then assessment_bias else 0))%R)
  ∧ Embedding.assessment_idx_of_loc Embedding.synthetic_embedding !! (0, 0) = Some 0
  ∧ (∃ Sk data,
      Embedding.notebook_interactions rng assessment_loc_of_idx lesson_loc_of_idx
      = Some (Sk, data)
      ∧ length data = Embedding.num_students * rows_per_student per_step
      ∧ ∀ n row, data !! n = Some row → module_type row = Assessment →
          ∃ student_idx assessment_idx s a,
            student_idx < Embedding.num_students
            ∧ student_id row = "S" +:+ pretty student_idx
            ∧ module_id row = Embedding.id_of_loc (assessment_loc_of_idx assessment_idx)
            ∧ Embedding.S_get Sk student_idx (timestep row) = Some s
            ∧ Embedding.A Embedding.synthetic_embedding !! assessment_idx = Some a
            ∧ ((n = first_row per_step student_idx
                ∧ timestep row = 1
                ∧ assessment_idx = 0
                ∧ outcome row
                  = Some (bool_decide
                      (py_random rng (first_draw rng per_step 0 student_idx)
                       < Embedding.assessment_pass_probability false s a
                           student_bias assessment_bias)%R))
               ∨ ∃ i c,
                   i < num_steps ∧ c < per_step
                   ∧ n = step_row per_step student_idx i c
                   ∧ timestep row = i + 2
                   ∧ assessment_idx
                     = step_assessment_idx rng per_step
                         (step_number per_step student_idx i c)
                   ∧ outcome row
                     = Some
                         (if decide (assessment_idx = 0)
                          then bool_decide
                                 (py_random rng
                                    (step_draw rng per_step 0 student_idx
                                       (step_number per_step student_idx i c) + 1)
                                  < 0.1)%R
                          else bool_decide
                                 (py_random rng
                                    (step_draw rng per_step 0 student_idx
                                       (step_number per_step student_idx i c))
                                  < Embedding.assessment_pass_probability false s a
                                      student_bias assessment_bias)%R)))
  ∧ first_draw rng per_step 0 0 = 0
  ∧ (∀ student_idx,
       step_draw rng per_step 0 student_idx (step_number per_step student_idx 0 0)
       = first_draw rng per_step 0 student_idx + 1)
  ∧ (∀ student_idx N,
       step_draw rng per_step 0 student_idx (N + 1)
       = step_draw rng per_step 0 student_idx N + 1
         + (if decide (0 = step_assessment_idx rng per_step N) then 1 else 0))
  ∧ (∀ student_idx,
       first_draw rng per_step 0 (student_idx + 1)
       = step_draw rng per_step 0 student_idx
           (step_number per_step student_idx num_steps 0)).
Proof.
  split; [done|]. split; [by vm_compute|].
  split; [|split; [apply first_draw_0|split; [apply step_draw_first|
                    split; [apply step_draw_S|apply first_draw_S]]]].
  destruct (notebook_interactions_spec rng assessment_loc_of_idx lesson_loc_of_idx)
    as (Sk & data & Hrun & Hlen & _ & Hrows).
  exists Sk, data. split; [exact Hrun|]. split; [exact Hlen|]. intros n row Hrow Htype.
  destruct (Hrows n row Hrow) as (_ & student_idx & Hs & Hid & Hfacts).
  rewrite Htype in Hfacts.
  destruct Hfacts as (a_idx & s & a & j & Hm & HS & HA & Ho & Hplace).
  exists student_idx, a_idx, s, a. repeat (split; [done|]).
  rewrite Ho. unfold threshold.
  destruct Hplace as [(Hn & Ht & Ha & Hj)|(i & c & Hi & Hc & Hn & Ht & Ha & Hj)].
  - left. repeat (split; [done|]).
    rewrite decide_False by lia. rewrite Hj. by rewrite <- pass_likelihood_model.
  - right. exists i, c. repeat (split; [done|]). rewrite Hj.
    destruct (decide (a_idx = 0)) as [Heq|Hne].
    + rewrite (decide_True (P := a_idx = 0 ∧ 2 ≤ timestep row)) by lia.
      by rewrite (decide_True (P := 0 = a_idx)) by done.
    + rewrite (decide_False (P := a_idx = 0 ∧ 2 ≤ timestep row)) by (intros [? _]; done).
      rewrite (decide_False (P := 0 = a_idx)) by done. rewrite Nat.add_0_r.
      by rewrite <- pass_likelihood_model.
Qed.

(** A generator whose uniform draws are all [1/2] and whose random integers
    are all [0], identifiers that are the index itself, and the state of
    the sampling loop of one student before the first lesson. *)
Definition rng_half : Rng := mkRng (λ _, (1 / 2)%R) (λ _, 0) (λ _, 0%R) (λ _, (1 / 2)%R).
Definition example_loc_of_idx (idx : nat) : list nat := [idx].
Definition before_first_lesson : Embedding.State :=
  Embedding.mkState seed
    (replicate 1 (Embedding.zeros Embedding.num_lesson_interactions_per_student
                    Embedding.embedding_dimension))
    [] 0 0 1.

Lemma sigmoid_gt_half (z : R) : (0 < z → 1 / 2 < sigmoid z)%R.
Proof.
  intros Hz. unfold sigmoid.
  assert (0 < exp (- z))%R as Hpos by apply exp_pos.
  assert (exp (- z) < 1)%R as Hlt.
  { rewrite <- exp_0. apply exp_increasing. lra. }
  apply Rmult_lt_reg_r with (1 + exp (- z))%R; [lra|].
  replace (1 / (1 + exp (- z)) * (1 + exp (- z)))%R with 1%R by (field; lra). lra.
Qed.

(** C1, as stated, fails: after the lesson [(1, 0)] at [(0, 0)] the student's
    skill is [(2.5, 0)]; the assessment drawn is the one at [(0, 0)], every
    uniform draw is [1/2] and below the pass probability of the formula,
    and the recorded outcome is a failure. *)
Lemma generator_outcome_not_pass_probability :
  ∃ st s a,
    Embedding.lesson_step rng_half Embedding.synthetic_embedding 1
      example_loc_of_idx example_loc_of_idx 0 "S0" (1, 0) before_first_lesson
    = Some (tt, st)
    ∧ Embedding.data st
      = [mkIxn "S0" (Embedding.id_of_loc (example_loc_of_idx 1)) Lesson None 1;
         mkIxn "S0" (Embedding.id_of_loc (example_loc_of_idx 0)) Assessment (Some false) 2]
    ∧ Embedding.S_get (Embedding.S st) 0 2 = Some s
    ∧ Embedding.A Embedding.synthetic_embedding !! 0 = Some a
    ∧ ∀ j, (py_random rng_half j
            < Embedding.assessment_pass_probability false s a 0 0)%R.
Proof.
  assert (Embedding.lesson_idx_of_loc Embedding.synthetic_embedding !! (0, 0, 1, 0)
          = Some 1) as Hl by (by vm_compute).
  assert (Embedding.assessment_idx_of_loc Embedding.synthetic_embedding !! (0, 0)
          = Some 0) as H00 by (by vm_compute).
  assert (Embedding.L Embedding.synthetic_embedding !! 1
          = Some [(INR 1 * Embedding.cell_size)%R; (INR 0 * Embedding.cell_size)%R])
    as HL by reflexivity.
  assert (Embedding.A Embedding.synthetic_embedding !! 0
          = Some [Rmax 1e-3 (INR 0 * Embedding.cell_size);
                  Rmax 1e-3 (INR 0 * Embedding.cell_size)]) as HA by reflexivity.
  set (s := [(0 + INR 1 * Embedding.cell_size)%R; (0 + INR 0 * Embedding.cell_size)%R]).
  set (a := [Rmax 1e-3 (INR 0 * Embedding.cell_size);
             Rmax 1e-3 (INR 0 * Embedding.cell_size)]).
  assert (1 / 2 < Embedding.pass_likelihood s a)%R as Hpass.
  { rewrite (pass_likelihood_model s a 0 0).
    unfold Embedding.assessment_pass_probability. apply sigmoid_gt_half.
    assert (INR 0 * Embedding.cell_size = 0)%R as E0 by (simpl; lra).
    assert (INR 1 * Embedding.cell_size = 5 / 2)%R as E1.
    { unfold Embedding.cell_size. change (Embedding.grid_size - 1) with 4.
      simpl. lra. }
    unfold s, a. rewrite E0, E1, Rmax_left by lra.
    set (n := norm [1e-3; 1e-3]%R).
    assert (0 < n ∧ n * n = 2e-6)%R as [Hn Hnn].
    { unfold n, norm.
      assert (dot [1e-3; 1e-3] [1e-3; 1e-3] = 2e-6)%R as -> by (unfold dot; simpl; lra).
      split; [apply sqrt_lt_R0; lra|apply sqrt_sqrt; lra]. }
    assert (dot [0 + 5 / 2; 0 + 0] [1e-3; 1e-3] = 2.5e-3)%R as ->
      by (unfold dot; simpl; lra).
    assert (n < 2.5e-3 / n)%R as Hdiv.
    { apply Rmult_lt_reg_r with n; [done|].
      replace (2.5e-3 / n * n)%R with 2.5e-3%R by (field; lra). lra. }
    lra. }
  revert Hl H00 HL HA.
  generalize Embedding.synthetic_embedding as g. intros g Hl H00 HL HA.
  assert (bool_decide (1 / 2 < 0.1)%R = false) as Hlow
    by (apply bool_decide_eq_false; lra).
  eexists _, s, a. split.
  { unfold Embedding.lesson_step, Embedding.step_assessment, before_first_lesson.
    unfold mbind, gen_bind, gets, item, Embedding.append, modify, Embedding.draw,
      mret, gen_ret, raise.
    simpl. rewrite Hl. simpl. rewrite HL. simpl. rewrite HA. simpl.
    cbv beta. simpl. rewrite H00. simpl. rewrite Hlow. reflexivity. }
  simpl. split; [reflexivity|]. split; [reflexivity|]. split; [exact HA|].
  intros j. simpl. by rewrite <- pass_likelihood_model.
Qed.

(** The skill trajectories the generator produces: [S[s, :, 0]] is the zero
    vector, and for every lesson interaction of student [s] at timestep [t]
    the final array has [S[s, :, t + 1] = S[s, :, t] + L[lesson, :]] for a
    lesson of the grid, with no prerequisite gate. *)
Theorem generator_skill_recurrence (rng : Rng)
    (assessment_loc_of_idx lesson_loc_of_idx : nat → list nat) :
  ∃ Sk data,
    Embedding.notebook_interactions rng assessment_loc_of_idx lesson_loc_of_idx
    = Some (Sk, data)
    ∧ (∀ student_idx, student_idx < Embedding.num_students →
         Embedding.S_get Sk student_idx 0
         = Some (replicate Embedding.embedding_dimension 0%R))
    ∧ ∀ row, row ∈ data → module_type row = Lesson →
        ∃ student_idx lesson_idx s l,
          student_idx < Embedding.num_students
          ∧ student_id row = "S" +:+ pretty student_idx
          ∧ module_id row = Embedding.id_of_loc (lesson_loc_of_idx lesson_idx)
          ∧ outcome row = None
          ∧ 1 ≤ timestep row
          ∧ Embedding.S_get Sk student_idx (timestep row) = Some s
          ∧ Embedding.L Embedding.synthetic_embedding !! lesson_idx = Some l
          ∧ Embedding.S_get Sk student_idx (timestep row + 1) = Some (zip_with Rplus s l).
Proof.
  destruct (notebook_interactions_spec rng assessment_loc_of_idx lesson_loc_of_idx)
    as (Sk & data & Hrun & _ & Hzero & Hrows).
  exists Sk, data. split; [exact Hrun|]. split.
  { intros student_idx Hs. by destruct (Hzero student_idx Hs). }
  intros row [n Hrow]%list_elem_of_lookup_1 Htype.
  destruct (Hrows n row Hrow) as ([Ht _] & student_idx & Hs & Hid & Hfacts).
  rewrite Htype in Hfacts. destruct Hfacts as (l_idx & s & l & Hm & Ho & HS & HL & HS').
  exists student_idx, l_idx, s, l. repeat (split; [assumption|]). assumption.
Qed.

End EmbeddingClaims.


(** * Further properties of the notebooks' code *)

Section SamplingSize.
Import DataTools Rand.

(** The sampling loop raises nothing, whatever the random stream, the number
    of students and the number of assessment interactions per step: it
    fills a table of [1 + 2 * (grid_size - 1) * (1 + k)] rows per student,
    every timestep of which lies between 1 and
    [num_lesson_interactions_per_student - 1], and leaves the shape of [S]
    as it was. *)
Theorem sample_interactions_size (rng : Rng) (num_students k : nat)
    (assessment_loc_of_idx lesson_loc_of_idx : nat → list nat) :
  ∃ Sk data,
    Embedding.sample_interactions rng Embedding.synthetic_embedding num_students k
      assessment_loc_of_idx lesson_loc_of_idx
    = Some (Sk, data)
    ∧ length Sk = num_students
    ∧ (∀ trajectory, trajectory ∈ Sk →
         length trajectory = Embedding.num_lesson_interactions_per_student)
    ∧ length data = num_students * (1 + 2 * (Embedding.grid_size - 1) * (1 + k))
    ∧ ∀ row, row ∈ data →
        1 ≤ timestep row < Embedding.num_lesson_interactions_per_student.
Proof.
  destruct (synthetic_interactions_spec rng num_students k assessment_loc_of_idx
              lesson_loc_of_idx)
    as (Sk & data & Hrun & [Hlen Hrows] & _ & _ & Hsize & Hdata).
  exists Sk, data. split; [exact Hrun|]. split; [exact Hlen|]. split.
  { intros trajectory [s Hs]%list_elem_of_lookup_1. by apply (Hrows s). }
  split; [exact Hsize|].
  intros row [n Hrow]%list_elem_of_lookup_1. by destruct (Hdata n row Hrow) as [Ht _].
Qed.

(** Whatever the order in which the lessons are shuffled, every student
    walks from [(0, 0)] to the far corner of the grid: the skill at the last
    timestep is [(10, 10)], the sum of the [2 * (grid_size - 1)] lesson
    embeddings on the way. *)
Theorem trajectories_end_at_far_corner (rng : Rng) (num_students k : nat)
    (assessment_loc_of_idx lesson_loc_of_idx : nat → list nat) :
  ∃ Sk data,
    Embedding.sample_interactions rng Embedding.synthetic_embedding num_students k
      assessment_loc_of_idx lesson_loc_of_idx
    = Some (Sk, data)
    ∧ ∀ student_idx, student_idx < num_students →
        Embedding.S_get Sk student_idx (Embedding.num_lesson_interactions_per_student - 1)
        = Some [10%R; 10%R].
Proof.
  destruct (synthetic_interactions_spec rng num_students k assessment_loc_of_idx
              lesson_loc_of_idx)
    as (Sk & data & Hrun & _ & _ & Hfin & _).
  exists Sk, data. split; [exact Hrun|]. intros student_idx Hs.
  rewrite (Hfin student_idx Hs). unfold position, Embedding.cell_size.
  change (Embedding.grid_size - 1) with 4. simpl. do 2 f_equal; [|f_equal]; field.
Qed.

End SamplingSize.

(** ** Pass rates and graphs of the exploration cells *)

Section GroupFacts.
Import DataTools Explore.
Context (column : Interaction → Z).

Lemma groupby_keys (df : list Interaction) :
  (groupby column df).*1 ≡ₚ elements (list_to_set (column <$> df) : gset Z).
Proof.
  unfold groupby.
  assert (∀ keys : list Z,
            ((λ key, (key, filter (λ r, column r = key) df)) <$> keys).*1 = keys) as ->.
  { induction keys as [|key keys IH]; [done|]. simpl. by f_equal. }
  apply merge_sort_Permutation.
Qed.

Lemma NoDup_groupby (df : list Interaction) : NoDup (groupby column df).*1.
Proof. rewrite groupby_keys. apply NoDup_elements. Qed.

Lemma elem_of_groupby (df : list Interaction) (key : Z) (group : list Interaction) :
  (key, group) ∈ groupby column df
  ↔ group = filter (λ r, column r = key) df ∧ group ≠ [].
Proof.
  unfold groupby. rewrite list_elem_of_fmap. split.
  - intros (key' & [= -> ->] & Hkey). split; [done|].
    rewrite merge_sort_Permutation, elem_of_elements, elem_of_list_to_set in Hkey.
    apply list_elem_of_fmap in Hkey as (r & -> & Hin).
    intros Hnil. assert (r ∈ filter (λ r', column r' = column r) df) as Hf
      by (by apply list_elem_of_filter).
    rewrite Hnil in Hf. by apply elem_of_nil in Hf.
  - intros [-> Hne]. exists key. split; [done|].
    rewrite merge_sort_Permutation, elem_of_elements, elem_of_list_to_set.
    destruct (filter (λ r, column r = key) df) as [|r rows] eqn:Hf; [done|].
    assert (r ∈ filter (λ r, column r = key) df) as Hr by (rewrite Hf; left).
    apply list_elem_of_filter in Hr as [<- Hr]. by apply list_elem_of_fmap_2.
Qed.

End GroupFacts.

Section PassRateFacts.
Import DataTools Explore.

Definition count_outcome (v : bool) (outcomes : list (option bool)) : nat :=
  length (filter (λ o, o = Some v) outcomes).

Lemma value_counts_from (vc : gmap bool nat) (outcomes : list (option bool)) (v : bool) :
  foldl (λ vc o, match o with
                 | Some v => <[v := S (default 0 (vc !! v))]> vc
                 | None => vc
                 end) vc outcomes !! v
  = if decide (count_outcome v outcomes = 0) then vc !! v
    else Some (default 0 (vc !! v) + count_outcome v outcomes).
Proof.
  revert vc. unfold count_outcome.
  induction outcomes as [|o outcomes IH]; intros vc; [done|]. simpl. rewrite IH.
  destruct o as [v'|].
  - destruct (decide (v' = v)) as [->|Hne].
    + rewrite filter_cons_True by done. rewrite lookup_insert_eq. simpl.
      repeat case_decide; try lia; f_equal; lia.
    + rewrite filter_cons_False by congruence. by rewrite lookup_insert_ne.
  - by rewrite filter_cons_False.
Qed.

Lemma value_counts_lookup (outcomes : list (option bool)) (v : bool) :
  value_counts outcomes !! v
  = if decide (count_outcome v outcomes = 0) then None
    else Some (count_outcome v outcomes).
Proof. unfold value_counts. rewrite value_counts_from. by rewrite lookup_empty. Qed.

Lemma count_outcome_fmap (v : bool) (rows : list Interaction) :
  count_outcome v (outcome <$> rows)
  = length (filter (λ r, outcome r = Some v) rows).
Proof.
  unfold count_outcome. induction rows as [|r rows IH]; [done|]. rewrite fmap_cons.
  destruct (decide (outcome r = Some v)).
  - rewrite !filter_cons_True by done. simpl. by rewrite IH.
  - by rewrite !filter_cons_False.
Qed.

(** The value [get_pass_rates] stores for one group. *)
Definition pass_rate (group : list Interaction) : Q :=
  let passed := count_outcome true (outcome <$> group) in
  if decide (passed = 0) then 0%Q
  else (inject_Z (Z.of_nat passed) / inject_Z (Z.of_nat (length group)))%Q.

Lemma get_pass_rates_step (pass_rates : gmap Z Q) (name : Z) (group : list Interaction) :
  (let vc := value_counts (outcome <$> group) in
   match vc !! true with
   | None => <[name := 0%Q]> pass_rates
   | Some passed =>
       <[name := (inject_Z (Z.of_nat passed)
                  / inject_Z (Z.of_nat (length group)))%Q]> pass_rates
   end) = <[name := pass_rate group]> pass_rates.
Proof.
  cbv zeta. rewrite value_counts_lookup. unfold pass_rate. by case_decide.
Qed.

Lemma get_pass_rates_fold (grouped : list (Z * list Interaction)) :
  get_pass_rates grouped
  = foldl (λ pass_rates g, <[g.1 := pass_rate g.2]> pass_rates) ∅ grouped.
Proof.
  unfold get_pass_rates. generalize (∅ : gmap Z Q).
  induction grouped as [|[name group] grouped IH]; intros pass_rates; [done|].
  simpl. rewrite get_pass_rates_step. apply IH.
Qed.

Lemma pass_rates_fold_lookup (pass_rates : gmap Z Q)
    (grouped : list (Z * list Interaction)) (name : Z) :
  NoDup grouped.*1 →
  foldl (λ pass_rates g, <[g.1 := pass_rate g.2]> pass_rates) pass_rates grouped !! name
  = match list_find (λ g, g.1 = name) grouped with
    | Some (_, g) => Some (pass_rate g.2)
    | None => pass_rates !! name
    end.
Proof.
  revert pass_rates. induction grouped as [|[name' group] grouped IH];
    intros pass_rates Hnd; [done|].
  apply NoDup_cons in Hnd as [Hnotin Hnd]. simpl.
  rewrite (IH _ Hnd). case_decide as Hname.
  - simpl in Hname. subst name'.
    destruct (list_find (λ g, g.1 = name) grouped) as [[i [n g]]|] eqn:Hfind; simpl.
    + apply list_find_Some in Hfind as (Hi & Hn & _). simpl in Hn. subst n.
      exfalso. apply Hnotin. apply list_elem_of_fmap.
      exists (name, g). split; [done|]. by eapply list_elem_of_lookup_2.
    + by rewrite lookup_insert_eq.
  - simpl in Hname.
    destruct (list_find (λ g, g.1 = name) grouped) as [[i [n g]]|]; simpl; [done|].
    by rewrite lookup_insert_ne.
Qed.

Lemma Qdiv_unit_interval (a b : nat) :
  0 < a → a ≤ b →
  (0 <= inject_Z (Z.of_nat a) / inject_Z (Z.of_nat b)
   ∧ inject_Z (Z.of_nat a) / inject_Z (Z.of_nat b) <= 1)%Q.
Proof.
  intros Ha Hab.
  assert (inject_Z 0 < inject_Z (Z.of_nat b))%Q as Hb by (rewrite <- Zlt_Qlt; lia).
  split.
  - apply Qle_shift_div_l; [done|]. rewrite Qmult_0_l.
    change 0%Q with (inject_Z 0). rewrite <- Zle_Qle. lia.
  - apply Qle_shift_div_r; [done|]. rewrite Qmult_1_l. rewrite <- Zle_Qle. lia.
Qed.

Lemma pass_rate_bounds (group : list Interaction) :
  (0 <= pass_rate group ∧ pass_rate group <= 1)%Q.
Proof.
  unfold pass_rate. case_decide as Hp; [done|].
  apply Qdiv_unit_interval; [lia|].
  unfold count_outcome. etrans; [apply length_filter|]. by rewrite length_fmap.
Qed.

End PassRateFacts.

Section PassRates.
Import DataTools Explore.

(** The pass rates of a grouped frame: a key without rows in the frame is
    no key of the dictionary (no division by zero); a group none of whose
    rows passed has rate 0; otherwise the rate is the number of rows with
    outcome [True] over the number of all rows of the group, rows without
    outcome included. *)
Theorem get_pass_rates_groupby (column : Interaction → Z) (df : list Interaction)
    (key : Z) :
  get_pass_rates (groupby column df) !! key
  = if decide (filter (λ r, column r = key) df = []) then None
    else if decide (length (filter (λ r, outcome r = Some true)
                              (filter (λ r, column r = key) df)) = 0)
         then Some 0%Q
         else Some (inject_Z (Z.of_nat (length (filter (λ r, outcome r = Some true)
                                                  (filter (λ r, column r = key) df))))
                    / inject_Z (Z.of_nat (length (filter (λ r, column r = key) df))))%Q.
Proof.
  rewrite get_pass_rates_fold, pass_rates_fold_lookup by apply NoDup_groupby.
  set (rows := filter (λ r, column r = key) df).
  pose proof (count_outcome_fmap true rows) as Hcount.
  destruct (list_find (λ g, g.1 = key) (groupby column df)) as [[i [key' group]]|]
    eqn:Hfind.
  - apply list_find_Some in Hfind as (Hi & Hkey & _). simpl in Hkey. subst key'.
    apply list_elem_of_lookup_2, elem_of_groupby in Hi as [-> Hne]. fold rows in Hne |- *.
    rewrite decide_False by done. cbn [snd]. unfold pass_rate. rewrite Hcount.
    by case_decide.
  - rewrite lookup_empty. case_decide as Hrows; [done|]. exfalso.
    apply list_find_None in Hfind.
    assert ((key, rows) ∈ groupby column df) as Hin by (by apply elem_of_groupby).
    rewrite Forall_forall in Hfind. by apply (Hfind _ Hin).
Qed.

(** Whatever the groups, every pass rate lies between 0 and 1. *)
Theorem get_pass_rates_bounds (grouped : list (Z * list Interaction)) (name : Z) (p : Q) :
  get_pass_rates grouped !! name = Some p → (0 <= p ∧ p <= 1)%Q.
Proof.
  rewrite get_pass_rates_fold.
  assert (∀ pass_rates : gmap Z Q,
            map_Forall (λ _ q, 0 <= q ∧ q <= 1)%Q pass_rates →
            map_Forall (λ _ q, 0 <= q ∧ q <= 1)%Q
              (foldl (λ pass_rates g, <[g.1 := pass_rate g.2]> pass_rates)
                     pass_rates grouped)) as Hinv.
  { induction grouped as [|[name' group] grouped IH]; intros pass_rates Hall; [done|].
    simpl. apply IH. apply map_Forall_insert_2; [apply pass_rate_bounds|done]. }
  intros Hp. exact (Hinv ∅ (map_Forall_empty _) name p Hp).
Qed.

(** One student with a passed and a failed assessment interaction. *)
Definition one_group : list (Z * list Interaction) :=
  [(7%Z, [mkInteraction 0 7 100 Assessment (Some true) 1 None None;
          mkInteraction 1 7 101 Assessment (Some false) 2 None None])].

Lemma get_pass_rates_bounds_witness : (0 <= 1 # 2 ∧ 1 # 2 <= 1)%Q.
Proof. apply (get_pass_rates_bounds one_group 7 (1 # 2)). reflexivity. Defined.

End PassRates.

Section FlowGraphFacts.
Import DataTools Explore.

(** [u] is immediately followed by [v] on a path. *)
Definition follows (path : list Z) (u v : Z) : Prop :=
  ∃ i, path !! i = Some u ∧ path !! (i + 1) = Some v.

Lemma elem_of_transitions (path : list Z) (u v : Z) :
  (u, v) ∈ transitions path ↔ follows path u v.
Proof.
  unfold transitions, follows. rewrite list_elem_of_lookup. split.
  - intros (i & (x & y & [= <- <-] & Hx & Hy)%lookup_zip_with_Some).
    apply lookup_take_Some in Hx as [Hx _]. rewrite lookup_drop in Hy.
    exists i. split; [done|]. by rewrite Nat.add_comm.
  - intros (i & Hu & Hv). exists i. apply lookup_zip_with_Some.
    exists u, v. split; [done|]. split.
    + apply lookup_take_Some. split; [done|].
      apply lookup_lt_Some in Hv. lia.
    + rewrite lookup_drop. by rewrite Nat.add_comm.
Qed.

(** The dictionary [E] holds no empty set and no stationary transition. *)
Definition wf_transitions (E : gmap (Z * Z) (gset Z)) : Prop :=
  ∀ k students, E !! k = Some students → students ≠ ∅ ∧ k.1 ≠ k.2.

Lemma add_transition_wf (student : Z) (E : gmap (Z * Z) (gset Z)) (st : Z * Z) :
  wf_transitions E → wf_transitions (add_transition student E st).
Proof.
  intros Hwf k students. unfold add_transition. case_decide as Hst; [|apply Hwf].
  destruct (decide (k = st)) as [->|Hk].
  - rewrite lookup_insert_eq. intros [= <-]. split; [set_solver|done].
  - rewrite lookup_insert_ne by done. apply Hwf.
Qed.

Lemma add_transition_elem (student : Z) (E : gmap (Z * Z) (gset Z)) (st k : Z * Z)
    (s : Z) :
  s ∈ add_transition student E st !!! k
  ↔ s ∈ E !!! k ∨ (s = student ∧ k = st ∧ k.1 ≠ k.2).
Proof.
  unfold add_transition. case_decide as Hst.
  - destruct (decide (k = st)) as [->|Hk].
    + rewrite lookup_total_insert_eq, elem_of_union, elem_of_singleton. split.
      * intros [?| ->]; [by left|by right].
      * intros [?|(-> & _ & _)]; [by left|by right].
    + rewrite lookup_total_insert_ne by done. split; [by left|].
      intros [?|(_ & ? & _)]; done.
  - split; [by left|]. intros [?|(_ & -> & ?)]; done.
Qed.

Lemma add_transitions_wf (student : Z) (l : list (Z * Z)) (E : gmap (Z * Z) (gset Z)) :
  wf_transitions E → wf_transitions (foldl (add_transition student) E l).
Proof.
  revert E. induction l as [|st l IH]; intros E Hwf; [done|].
  simpl. by apply IH, add_transition_wf.
Qed.

Lemma add_transitions_elem (student : Z) (l : list (Z * Z)) (E : gmap (Z * Z) (gset Z))
    (k : Z * Z) (s : Z) :
  s ∈ foldl (add_transition student) E l !!! k
  ↔ s ∈ E !!! k ∨ (s = student ∧ k ∈ l ∧ k.1 ≠ k.2).
Proof.
  revert E. induction l as [|st l IH]; intros E; simpl.
  - split; [by left|]. by intros [?|(_ & ?%elem_of_nil & _)].
  - rewrite IH, add_transition_elem, elem_of_cons. split.
    + intros [[?|(-> & -> & ?)]|(-> & ? & ?)].
      * by left.
      * right. split; [done|]. split; [by left|done].
      * right. split; [done|]. split; [by right|done].
    + intros [?|(-> & [-> | ?] & ?)].
      * by left; left.
      * left; right. done.
      * right. done.
Qed.

Lemma transition_groups_wf (groups : list (Z * list Interaction))
    (E : gmap (Z * Z) (gset Z)) :
  wf_transitions E →
  wf_transitions
    (foldl (λ E '(student, group),
              foldl (add_transition student) E (transitions (module_id <$> group)))
           E groups).
Proof.
  revert E. induction groups as [|[student group] groups IH]; intros E Hwf; [done|].
  simpl. by apply IH, add_transitions_wf.
Qed.

Lemma transition_groups_elem (groups : list (Z * list Interaction))
    (E : gmap (Z * Z) (gset Z)) (k : Z * Z) (s : Z) :
  s ∈ foldl (λ E '(student, group),
               foldl (add_transition student) E (transitions (module_id <$> group)))
            E groups !!! k
  ↔ s ∈ E !!! k
    ∨ ∃ group, (s, group) ∈ groups ∧ k ∈ transitions (module_id <$> group)
               ∧ k.1 ≠ k.2.
Proof.
  revert E. induction groups as [|[student group] groups IH]; intros E; simpl.
  - split; [by left|]. by intros [?|(? & ?%elem_of_nil & _)].
  - rewrite IH, add_transitions_elem. split.
    + intros [[?|(-> & ? & ?)]|(g & ? & ? & ?)].
      * by left.
      * right. exists group. split; [left|done].
      * right. exists g. split; [by right|done].
    + intros [?|(g & [[= <- <-]|?]%elem_of_cons & ? & ?)].
      * by left; left.
      * left; right. done.
      * right. by exists g.
Qed.

(** The modules of the rows of a student, in the order of the log. *)
Definition path_of (interaction_logs : list Interaction) (s : Z) : list Z :=
  module_id <$> filter (λ r, student_id r = s) interaction_logs.

Lemma transition_students_wf (interaction_logs : list Interaction) :
  wf_transitions (transition_students interaction_logs).
Proof.
  apply transition_groups_wf. intros k students. by rewrite lookup_empty.
Qed.

Lemma elem_of_transition_students (interaction_logs : list Interaction) (u v s : Z) :
  s ∈ transition_students interaction_logs !!! (u, v)
  ↔ u ≠ v ∧ follows (path_of interaction_logs s) u v.
Proof.
  unfold transition_students. rewrite transition_groups_elem, lookup_total_empty.
  split.
  - intros [?%elem_of_empty|(group & [-> _]%elem_of_groupby & Hk & Hne)]; [done|].
    split; [done|]. by apply elem_of_transitions.
  - intros [Hne Hfollows]. right. exists (filter (λ r, student_id r = s) interaction_logs).
    split; [|split; [by apply elem_of_transitions|done]].
    apply elem_of_groupby. split; [done|]. intros Hnil.
    destruct Hfollows as (i & Hu & _). unfold path_of in Hu. by rewrite Hnil in Hu.
Qed.

End FlowGraphFacts.

Section FlowGraph.
Import DataTools Explore.

(** The students on whose path [u] is immediately followed by [v]. *)
Definition made_transition (interaction_logs : list Interaction) (u v : Z) : gset Z :=
  filter (λ s, (u, v) ∈ transitions (path_of interaction_logs s))
         (list_to_set (student_id <$> interaction_logs)).

Lemma elem_of_made_transition (interaction_logs : list Interaction) (u v s : Z) :
  s ∈ made_transition interaction_logs u v ↔ follows (path_of interaction_logs s) u v.
Proof.
  unfold made_transition. rewrite elem_of_filter, elem_of_transitions, elem_of_list_to_set.
  split; [by intros [? _]|]. intros Hf. split; [done|].
  destruct Hf as (i & Hu & _). unfold path_of in Hu.
  apply list_lookup_fmap_Some in Hu as (r & _ & Hr).
  apply list_elem_of_lookup_2, list_elem_of_filter in Hr as [<- Hr].
  by apply list_elem_of_fmap_2.
Qed.

(** The flow graph has an edge from [u] to [v] exactly when the two modules
    differ and some student's path has [u] immediately followed by [v];
    the weight of the edge is the number of such students (not of such
    transitions). *)
Theorem make_flow_graph_edges (interaction_logs : list Interaction) (u v : Z) :
  (∀ s, s ∈ made_transition interaction_logs u v
        ↔ follows (path_of interaction_logs s) u v)
  ∧ flow_edges (make_flow_graph interaction_logs) !! (u, v)
    = if decide (u ≠ v ∧ made_transition interaction_logs u v ≠ ∅)
      then Some (size (made_transition interaction_logs u v))
      else None.
Proof.
  split; [intros s; apply elem_of_made_transition|].
  unfold make_flow_graph. cbn [flow_edges]. rewrite lookup_fmap.
  pose proof (transition_students_wf interaction_logs (u, v)) as Hwf.
  pose proof (elem_of_transition_students interaction_logs u v) as Helem.
  rewrite lookup_total_alt in Helem.
  destruct (transition_students interaction_logs !! (u, v)) as [students|];
    simpl in Helem |- *.
  - destruct (Hwf students eq_refl) as [Hne Huv]. simpl in Huv.
    assert (students = made_transition interaction_logs u v) as <-.
    { apply set_eq. intros s. rewrite Helem, elem_of_made_transition. tauto. }
    by rewrite decide_True.
  - rewrite decide_False; [done|]. intros [Huv Hne]. apply Hne.
    apply set_eq. intros s. rewrite elem_of_made_transition. split.
    + intros Hs. apply (Helem s). by split.
    + by intros ?%elem_of_empty.
Qed.

(** The flow graph has no self-loop, its edges join modules of the log, and
    a weight is at least 1 and at most the number of students. *)
Theorem make_flow_graph_wellformed (interaction_logs : list Interaction) (u v : Z)
    (weight : nat) :
  flow_edges (make_flow_graph interaction_logs) !! (u, v) = Some weight →
  u ≠ v
  ∧ u ∈ flow_nodes (make_flow_graph interaction_logs)
  ∧ v ∈ flow_nodes (make_flow_graph interaction_logs)
  ∧ 1 ≤ weight ≤ size (list_to_set (student_id <$> interaction_logs) : gset Z).
Proof.
  unfold make_flow_graph. cbn [flow_edges flow_nodes]. rewrite lookup_fmap.
  pose proof (transition_students_wf interaction_logs (u, v)) as Hwf.
  pose proof (elem_of_transition_students interaction_logs u v) as Helem.
  rewrite lookup_total_alt in Helem.
  destruct (transition_students interaction_logs !! (u, v)) as [students|];
    simpl in Helem |- *; [|done].
  intros [= <-]. destruct (Hwf students eq_refl) as [Hne Huv]. simpl in Huv.
  split; [done|].
  assert (∀ s, s ∈ students →
            s ∈ (list_to_set (student_id <$> interaction_logs) : gset Z)
            ∧ u ∈ module_id <$> interaction_logs ∧ v ∈ module_id <$> interaction_logs)
    as Hrows.
  { intros s [_ (i & Hu & Hv)]%Helem. unfold path_of in Hu, Hv.
    apply list_lookup_fmap_Some in Hu as (r & -> & Hr).
    apply list_lookup_fmap_Some in Hv as (r' & -> & Hr').
    apply list_elem_of_lookup_2, list_elem_of_filter in Hr as [<- Hr].
    apply list_elem_of_lookup_2, list_elem_of_filter in Hr' as [_ Hr'].
    rewrite elem_of_list_to_set. split; [|split]; by apply list_elem_of_fmap_2. }
  apply set_choose_L in Hne as Hs. destruct Hs as [s Hs].
  destruct (Hrows s Hs) as (_ & Hu & Hv).
  rewrite !elem_of_list_to_set. split; [done|]. split; [done|]. split.
  - assert (size students ≠ 0); [|lia].
    apply size_non_empty_iff. by intros ?%leibniz_equiv.
  - apply subseteq_size. intros s' Hs'. by destruct (Hrows s' Hs').
Qed.

(** Two students: the first goes from module 10 to module 11, the second
    repeats module 10 and then goes to module 11. *)
Definition two_paths : list Interaction :=
  [ mkInteraction 0 1 10 Assessment (Some true) 1 None None;
    mkInteraction 1 2 10 Assessment (Some false) 1 None None;
    mkInteraction 2 1 11 Assessment (Some true) 2 None None;
    mkInteraction 3 2 10 Assessment (Some true) 2 None None;
    mkInteraction 4 2 11 Assessment (Some true) 3 None None ].

Lemma make_flow_graph_wellformed_witness :
  (10 ≠ 11)%Z
  ∧ (10%Z ∈ flow_nodes (make_flow_graph two_paths))
  ∧ (11%Z ∈ flow_nodes (make_flow_graph two_paths))
  ∧ 1 ≤ 2 ≤ size (list_to_set (student_id <$> two_paths) : gset Z).
Proof. apply (make_flow_graph_wellformed two_paths 10 11 2). by vm_compute. Defined.

End FlowGraph.

Section ConnGraphFacts.
Import DataTools Explore.

Lemma module_nodes_fold (modules : list Z) (G : ConnGraph) :
  conn_edges (foldl (λ G module, mkConnGraph (<[module := module_label]> (conn_nodes G))
                                             (conn_edges G)) G modules)
  = conn_edges G
  ∧ ∀ z, conn_nodes (foldl (λ G module,
                              mkConnGraph (<[module := module_label]> (conn_nodes G))
                                          (conn_edges G)) G modules) !! z
         = if decide (z ∈ modules) then Some module_label else conn_nodes G !! z.
Proof.
  revert G. induction modules as [|m modules IH]; intros G.
  - split; [done|]. intros z. rewrite decide_False; [done|]. by intros ?%elem_of_nil.
  - simpl. destruct (IH (mkConnGraph (<[m := module_label]> (conn_nodes G)) (conn_edges G)))
      as [Hedges Hnodes].
    split; [done|]. intros z. rewrite Hnodes. simpl.
    destruct (decide (z ∈ modules)) as [Hz|Hz].
    + rewrite decide_True; [done|by right].
    + destruct (decide (z = m)) as [->|Hne].
      * rewrite lookup_insert_eq. rewrite decide_True; [done|by left].
      * rewrite lookup_insert_ne by done. rewrite decide_False; [done|].
        by intros [?|?]%elem_of_cons.
Qed.

Lemma student_edges_fold (student : Z) (modules : list Z) (G : ConnGraph) :
  conn_nodes (foldl (λ G module, mkConnGraph (conn_nodes G)
                                             ({[(student, module)]} ∪ conn_edges G))
                    G modules)
  = conn_nodes G
  ∧ ∀ e, e ∈ conn_edges (foldl (λ G module,
                                  mkConnGraph (conn_nodes G)
                                              ({[(student, module)]} ∪ conn_edges G))
                               G modules)
         ↔ e ∈ conn_edges G ∨ ∃ m, m ∈ modules ∧ e = (student, m).
Proof.
  revert G. induction modules as [|m modules IH]; intros G.
  - split; [done|]. intros e. split; [by left|].
    by intros [?|(m & ?%elem_of_nil & _)].
  - simpl. destruct (IH (mkConnGraph (conn_nodes G) ({[(student, m)]} ∪ conn_edges G)))
      as [Hnodes Hedges].
    split; [done|]. intros e. rewrite Hedges. simpl.
    rewrite elem_of_union, elem_of_singleton. split.
    + intros [[->|?]|(m' & Hm' & ->)].
      * right. exists m. split; [left|done].
      * by left.
      * right. exists m'. split; [by right|done].
    + intros [?|(m' & [->|Hm']%elem_of_cons & ->)].
      * left. by right.
      * left. by left.
      * right. by exists m'.
Qed.

Lemma student_groups_fold (groups : list (Z * list Interaction)) (G : ConnGraph) :
  (∀ z, conn_nodes
          (foldl (λ G '(student, group),
                    let G := mkConnGraph (<[student := student_label]> (conn_nodes G))
                                         (conn_edges G) in
                    foldl (λ G module, mkConnGraph (conn_nodes G)
                                                   ({[(student, module)]} ∪ conn_edges G))
                          G (elements (list_to_set (module_id <$> group) : gset Z)))
                 G groups) !! z
        = if decide (z ∈ groups.*1) then Some student_label else conn_nodes G !! z)
  ∧ ∀ e, e ∈ conn_edges
               (foldl (λ G '(student, group),
                    let G := mkConnGraph (<[student := student_label]> (conn_nodes G))
                                         (conn_edges G) in
                    foldl (λ G module, mkConnGraph (conn_nodes G)
                                                   ({[(student, module)]} ∪ conn_edges G))
                          G (elements (list_to_set (module_id <$> group) : gset Z)))
                 G groups)
         ↔ e ∈ conn_edges G
           ∨ ∃ s group r, (s, group) ∈ groups ∧ r ∈ group ∧ e = (s, module_id r).
Proof.
  revert G. induction groups as [|[s group] groups IH]; intros G.
  - split.
    + intros z. rewrite decide_False; [done|]. by intros ?%elem_of_nil.
    + intros e. split; [by left|]. by intros [?|(? & ? & ? & ?%elem_of_nil & _)].
  - cbn [foldl fmap list_fmap fst]. cbv zeta.
    destruct (student_edges_fold s
                (elements (list_to_set (module_id <$> group) : gset Z))
                (mkConnGraph (<[s := student_label]> (conn_nodes G)) (conn_edges G)))
      as [Hnodes1 Hedges1].
    destruct (IH (foldl (λ G module, mkConnGraph (conn_nodes G)
                                       ({[(s, module)]} ∪ conn_edges G))
                    (mkConnGraph (<[s := student_label]> (conn_nodes G)) (conn_edges G))
                    (elements (list_to_set (module_id <$> group) : gset Z))))
      as [Hnodes Hedges].
    split.
    + intros z. rewrite Hnodes, Hnodes1. simpl.
      destruct (decide (z ∈ groups.*1)) as [Hz|Hz].
      * rewrite decide_True; [done|by right].
      * destruct (decide (z = s)) as [->|Hne].
        -- rewrite lookup_insert_eq. rewrite decide_True; [done|by left].
        -- rewrite lookup_insert_ne by done. rewrite decide_False; [done|].
           by intros [?|?]%elem_of_cons.
    + intros e. rewrite Hedges, Hedges1. simpl. split.
      * intros [[?|(m & Hm & ->)]|(s' & g & r & Hin & Hr & ->)].
        -- by left.
        -- right. rewrite elem_of_elements, elem_of_list_to_set in Hm.
           apply list_elem_of_fmap in Hm as (r & -> & Hr).
           exists s, group, r. split; [left|done].
        -- right. exists s', g, r. split; [by right|done].
      * intros [?|(s' & g & r & [[= -> ->]|Hin]%elem_of_cons & Hr & ->)].
        -- by left; left.
        -- left; right. exists (module_id r). split; [|done].
           rewrite elem_of_elements, elem_of_list_to_set. by apply list_elem_of_fmap_2.
        -- right. by exists s', g, r.
Qed.

Lemma conn_graph_nodes (interaction_logs : list Interaction) (z : Z) :
  conn_nodes (make_conn_graph interaction_logs) !! z
  = if decide (z ∈ student_id <$> interaction_logs) then Some student_label
    else if decide (z ∈ module_id <$> interaction_logs) then Some module_label
    else None.
Proof.
  unfold make_conn_graph. cbv zeta.
  destruct (student_groups_fold (groupby student_id interaction_logs)
              (foldl (λ G module, mkConnGraph (<[module := module_label]> (conn_nodes G))
                                              (conn_edges G))
                     (mkConnGraph ∅ ∅) (remove_dups (module_id <$> interaction_logs))))
    as [-> _].
  destruct (module_nodes_fold (remove_dups (module_id <$> interaction_logs))
              (mkConnGraph ∅ ∅)) as [_ ->].
  simpl. rewrite lookup_empty.
  assert (z ∈ (groupby student_id interaction_logs).*1
          ↔ z ∈ student_id <$> interaction_logs) as Hstudents.
  { rewrite groupby_keys, elem_of_elements, elem_of_list_to_set. done. }
  repeat case_decide; try done; try tauto.
  - exfalso. rewrite elem_of_remove_dups in *. tauto.
  - exfalso. rewrite elem_of_remove_dups in *. tauto.
Qed.

Lemma conn_graph_edges (interaction_logs : list Interaction) (s m : Z) :
  (s, m) ∈ conn_edges (make_conn_graph interaction_logs)
  ↔ ∃ r, r ∈ interaction_logs ∧ student_id r = s ∧ module_id r = m.
Proof.
  unfold make_conn_graph. cbv zeta.
  destruct (student_groups_fold (groupby student_id interaction_logs)
              (foldl (λ G module, mkConnGraph (<[module := module_label]> (conn_nodes G))
                                              (conn_edges G))
                     (mkConnGraph ∅ ∅) (remove_dups (module_id <$> interaction_logs))))
    as [_ ->].
  destruct (module_nodes_fold (remove_dups (module_id <$> interaction_logs))
              (mkConnGraph ∅ ∅)) as [-> _].
  simpl. split.
  - intros [?%elem_of_empty|(s' & group & r & [-> _]%elem_of_groupby & Hr & [= -> ->])];
      [done|].
    apply list_elem_of_filter in Hr as [? ?]. by exists r.
  - intros (r & Hr & <- & <-). right.
    exists (student_id r), (filter (λ r', student_id r' = student_id r) interaction_logs), r.
    assert (r ∈ filter (λ r', student_id r' = student_id r) interaction_logs) as Hin
      by (by apply list_elem_of_filter).
    split; [|done]. apply elem_of_groupby. split; [done|].
    intros Hnil. rewrite Hnil in Hin. by apply elem_of_nil in Hin.
Qed.

End ConnGraphFacts.

Section ConnGraph.
Import DataTools Explore.

(** The connection graph joins a student to a module exactly when the log
    has an interaction of that student with that module; a node carries the
    label of a student when its name is a student id of the log, and the
    label of a module when it is a module id and no student id. *)
Theorem make_conn_graph_spec (interaction_logs : list Interaction) :
  (∀ s m, (s, m) ∈ conn_edges (make_conn_graph interaction_logs)
          ↔ ∃ r, r ∈ interaction_logs ∧ student_id r = s ∧ module_id r = m)
  ∧ ∀ z, conn_nodes (make_conn_graph interaction_logs) !! z
         = if decide (z ∈ student_id <$> interaction_logs) then Some student_label
           else if decide (z ∈ module_id <$> interaction_logs) then Some module_label
           else None.
Proof.
  split.
  - intros s m. apply conn_graph_edges.
  - intros z. apply conn_graph_nodes.
Qed.

(** When no student id is also a module id, the connection graph is
    bipartite: every edge leaves a node labelled as a student and enters a
    node labelled as a module. *)
Theorem make_conn_graph_bipartite (interaction_logs : list Interaction) (s m : Z) :
  (∀ r r', r ∈ interaction_logs → r' ∈ interaction_logs → student_id r ≠ module_id r') →
  (s, m) ∈ conn_edges (make_conn_graph interaction_logs) →
  conn_nodes (make_conn_graph interaction_logs) !! s = Some student_label
  ∧ conn_nodes (make_conn_graph interaction_logs) !! m = Some module_label.
Proof.
  intros Hdisjoint (r & Hr & <- & <-)%conn_graph_edges.
  rewrite !conn_graph_nodes. split.
  - rewrite decide_True; [done|]. by apply list_elem_of_fmap_2.
  - rewrite decide_False.
    + rewrite decide_True; [done|]. by apply list_elem_of_fmap_2.
    + intros (r' & Heq & Hr')%list_elem_of_fmap. by apply (Hdisjoint r' r).
Qed.

Lemma make_conn_graph_bipartite_witness :
  conn_nodes (make_conn_graph two_paths) !! 2%Z = Some student_label
  ∧ conn_nodes (make_conn_graph two_paths) !! 11%Z = Some module_label.
Proof.
  apply (make_conn_graph_bipartite two_paths 2 11).
  - intros r r' Hr Hr'. unfold two_paths in Hr, Hr'.
    repeat (apply elem_of_cons in Hr as [->|Hr]);
      repeat (apply elem_of_cons in Hr' as [->|Hr']);
      try (by apply elem_of_nil in Hr); try (by apply elem_of_nil in Hr'); done.
  - by vm_compute.
Defined.

End ConnGraph.

(** ** Identifiers *)

Section IdFacts.
Import Ids.

Lemma is_nat_pretty_N_char (d : N) :
  (d < 10)%N → Ascii.is_nat (pretty_N_char d) = Some (N.to_nat d).
Proof.
  intros Hd.
  assert (d = 0 ∨ d = 1 ∨ d = 2 ∨ d = 3 ∨ d = 4 ∨ d = 5 ∨ d = 6 ∨ d = 7 ∨ d = 8 ∨ d = 9)%N
    as Hcases by lia.
  repeat (destruct Hcases as [->|Hcases]; [reflexivity|]). by subst d.
Qed.

Lemma int_digits_pretty_N_go (x : N) (s : string) :
  ∃ k : N, ∀ acc, int_digits acc (pretty_N_go x s) = int_digits (acc * 10 ^ k + x) s.
Proof.
  revert s. induction (N.lt_wf_0 x) as [x _ IH]; intros s.
  assert (x = 0 ∨ 0 < x)%N as [->|Hx] by lia.
  - exists 0%N. intros acc. rewrite pretty_N_go_0. f_equal. lia.
  - rewrite pretty_N_go_step by done.
    destruct (IH (x `div` 10)%N ltac:(by apply N.div_lt)
                 (String (pretty_N_char (x `mod` 10)) s)) as [k Hk].
    exists (k + 1)%N. intros acc. rewrite Hk. simpl.
    rewrite is_nat_pretty_N_char by (by apply N.mod_lt). simpl. f_equal.
    rewrite N2Nat.id, N.pow_add_r, N.pow_1_r.
    pose proof (N.div_mod x 10 ltac:(done)). lia.
Qed.

Lemma int_pretty (i : nat) : int (pretty i) = Some (N.of_nat i).
Proof.
  unfold pretty, pretty_nat, pretty, pretty_N. case_decide as Hi.
  - by rewrite Hi.
  - destruct (int_digits_pretty_N_go (N.of_nat i) "") as [k Hk].
    specialize (Hk 0%N). simpl in Hk. unfold int. case_decide as Hempty.
    + rewrite Hempty in Hk. simpl in Hk. by simplify_eq.
    + done.
Qed.

End IdFacts.

Section IdRoundTrip.
Import Ids.

(** The index maps invert the identifiers of the generator: the index read
    back from the [i]-th student id ['S' + str(i)] is [i], and likewise for
    the assessment ids ['A' + str(i)]. *)
Theorem idx_of_id_round_trip (num_students num_assessments i : nat) :
  (∀ id, IRT.student_ids num_students !! i = Some id → idx_of_student_id id = Some i)
  ∧ (∀ id, IRT.assessment_ids num_assessments !! i = Some id →
           idx_of_assessment_id id = Some i).
Proof.
  unfold IRT.student_ids, IRT.assessment_ids, idx_of_student_id, idx_of_assessment_id.
  split; intros id Hid; apply list_lookup_fmap_Some in Hid as (x & -> & Hx);
    apply lookup_seq in Hx as [-> _].
  - change (drop_first ("S" +:+ pretty (0 + i))) with (pretty (0 + i)).
    rewrite int_pretty. simpl. by rewrite Nat2N.id.
  - change (drop_first ("A" +:+ pretty (0 + i))) with (pretty (0 + i)).
    rewrite int_pretty. simpl. by rewrite Nat2N.id.
Qed.

End IdRoundTrip.

Section IdOfLoc.

Lemma string_app_assoc (s1 s2 s3 : string) : s1 +:+ (s2 +:+ s3) = (s1 +:+ s2) +:+ s3.
Proof.
  induction s1 as [|c s1 IH]; [done|].
  change (String c (s1 +:+ (s2 +:+ s3)) = String c ((s1 +:+ s2) +:+ s3)).
  by rewrite IH.
Qed.

Lemma string_app_nil_r (s : string) : s +:+ "" = s.
Proof.
  induction s as [|c s IH]; [done|].
  change (String c (s +:+ "") = String c s). by rewrite IH.
Qed.

(** The part of an identifier after its first number. *)
Fixpoint id_rest (x : list nat) : string :=
  match x with
  | [] => ""
  | z :: x => "-" +:+ pretty z +:+ id_rest x
  end.

Lemma id_of_loc_fold (x : list nat) (acc : string) :
  foldl (λ acc z, acc +:+ "-" +:+ pretty z) acc x = acc +:+ id_rest x.
Proof.
  revert acc. induction x as [|z x IH]; intros acc; cbn [foldl id_rest].
  - by rewrite string_app_nil_r.
  - rewrite IH. by rewrite <- !string_app_assoc.
Qed.

Lemma id_of_loc_cons (z : nat) (x : list nat) :
  Embedding.id_of_loc (z :: x) = pretty z +:+ id_rest x.
Proof. unfold Embedding.id_of_loc. apply id_of_loc_fold. Qed.

Fixpoint no_dash (s : string) : Prop :=
  match s with
  | "" => True
  | String c s => c ≠ "-"%char ∧ no_dash s
  end.

(** Empty, or led by a dash. *)
Definition dash_led (s : string) : Prop :=
  match s with
  | "" => True
  | String c _ => c = "-"%char
  end.

Lemma digits_prefix_unique (d1 d2 r1 r2 : string) :
  no_dash d1 → no_dash d2 → dash_led r1 → dash_led r2 →
  d1 +:+ r1 = d2 +:+ r2 → d1 = d2 ∧ r1 = r2.
Proof.
  revert d2. induction d1 as [|c1 d1 IH]; intros [|c2 d2] H1 H2 Hr1 Hr2 Heq.
  - done.
  - change (r1 = String c2 (d2 +:+ r2)) in Heq. subst r1.
    destruct H2 as [H2 _]. by destruct H2.
  - change (String c1 (d1 +:+ r1) = r2) in Heq. subst r2.
    destruct H1 as [H1 _]. by destruct H1.
  - change (String c1 (d1 +:+ r1) = String c2 (d2 +:+ r2)) in Heq.
    injection Heq as -> Heq. destruct H1 as [_ H1], H2 as [_ H2].
    by destruct (IH d2 H1 H2 Hr1 Hr2 Heq) as [-> ->].
Qed.

Lemma no_dash_pretty_N_go (x : N) (s : string) :
  ∃ d, pretty_N_go x s = d +:+ s ∧ no_dash d ∧ (0 < x → d ≠ "")%N.
Proof.
  revert s. induction (N.lt_wf_0 x) as [x _ IH]; intros s.
  assert (x = 0 ∨ 0 < x)%N as [->|Hx] by lia.
  - exists "". rewrite pretty_N_go_0. split; [done|]. split; [done|]. lia.
  - rewrite pretty_N_go_step by done.
    destruct (IH (x `div` 10)%N ltac:(by apply N.div_lt)
                 (String (pretty_N_char (x `mod` 10)) s)) as (d & -> & Hd & _).
    exists (d +:+ String (pretty_N_char (x `mod` 10)) "").
    split; [by rewrite <- string_app_assoc|]. split.
    + clear -Hd. induction d as [|c d IHd]; simpl.
      * split; [|done]. unfold pretty_N_char. by repeat case_match.
      * destruct Hd as [? ?]. split; [done|]. by apply IHd.
    + intros _. by destruct d.
Qed.

Lemma no_dash_pretty (z : nat) : no_dash (pretty z) ∧ pretty z ≠ "".
Proof.
  unfold pretty, pretty_nat, pretty, pretty_N. case_decide as Hz.
  - split; [|done]. simpl. split; [|done]. done.
  - destruct (no_dash_pretty_N_go (N.of_nat z) "") as (d & -> & Hd & Hne).
    rewrite string_app_nil_r.
    split; [done|]. apply Hne. lia.
Qed.

Lemma dash_led_id_rest (x : list nat) : dash_led (id_rest x).
Proof. by destruct x. Qed.

Lemma id_rest_inj (x y : list nat) : id_rest x = id_rest y → x = y.
Proof.
  revert y. induction x as [|z x IH]; intros [|w y] Heq; simpl in Heq; try done.
  injection Heq as Heq.
  destruct (digits_prefix_unique (pretty z) (pretty w) (id_rest x) (id_rest y)
              (proj1 (no_dash_pretty z)) (proj1 (no_dash_pretty w))
              (dash_led_id_rest x) (dash_led_id_rest y) Heq) as [Hzw Hxy].
  apply (inj pretty) in Hzw as ->. by rewrite (IH y Hxy).
Qed.

(** Two locations have the same identifier only if they are the same
    location: the dictionary comprehensions keyed by [id_of_loc(loc)] lose
    no entry. *)
Theorem id_of_loc_inj (x y : list nat) :
  Embedding.id_of_loc x = Embedding.id_of_loc y ↔ x = y.
Proof.
  split; [|by intros ->].
  destruct x as [|z x], y as [|w y]; [done|..].
  - rewrite id_of_loc_cons. simpl. intros Heq. exfalso.
    destruct (no_dash_pretty w) as [_ Hne]. destruct (pretty w); [done|]. done.
  - rewrite id_of_loc_cons. simpl. intros Heq. exfalso.
    destruct (no_dash_pretty z) as [_ Hne]. destruct (pretty z); [done|]. done.
  - rewrite !id_of_loc_cons. intros Heq.
    destruct (digits_prefix_unique (pretty z) (pretty w) (id_rest x) (id_rest y)
                (proj1 (no_dash_pretty z)) (proj1 (no_dash_pretty w))
                (dash_led_id_rest x) (dash_led_id_rest y) Heq) as [Hzw Hxy].
    apply (inj pretty) in Hzw as ->. by rewrite (id_rest_inj x y Hxy).
Qed.

End IdOfLoc.

(** ** Parsers, filter and IRT generator: edge behaviour *)

Section SortUnique.
Import DataTools.

Lemma StronglySorted_unique_on {A} (R : relation A) (l1 l2 : list A) :
  (∀ a b, a ∈ l1 → b ∈ l1 → R a b → R b a → a = b) →
  StronglySorted R l1 → StronglySorted R l2 → l1 ≡ₚ l2 → l1 = l2.
Proof.
  revert l2. induction l1 as [|a l1 IH]; intros l2 Hanti Hs1 Hs2 Hperm.
  - by apply Permutation_nil_l in Hperm.
  - destruct l2 as [|b l2]; [by apply Permutation_nil_r in Hperm|].
    apply StronglySorted_inv in Hs1 as [Hs1 Ha], Hs2 as [Hs2 Hb].
    rewrite Forall_forall in Ha, Hb.
    assert (a = b) as <-.
    { assert (a ∈ b :: l2) as Ha' by (rewrite <- Hperm; left).
      assert (b ∈ a :: l1) as Hb' by (rewrite Hperm; left).
      apply elem_of_cons in Ha' as [?|Ha']; [done|].
      apply elem_of_cons in Hb' as Hb''. destruct Hb'' as [?|Hb'']; [done|].
      apply Hanti; [left|done|by apply Ha|by apply Hb]. }
    f_equal. apply IH; [|done|done|by eapply Permutation_cons_inv].
    intros x y Hx Hy. apply Hanti; by right.
Qed.

Lemma key_le_antisym (a b : option Z) :
  key_le a b = true → key_le b a = true → a = b.
Proof.
  destruct a as [x|], b as [y|]; simpl; try done.
  rewrite !bool_decide_eq_true. intros. f_equal. lia.
Qed.

Lemma sort_values_Permutation {A} (key : A → option Z) (l1 l2 : list A) :
  NoDup (key <$> l1) → l1 ≡ₚ l2 → sort_values key l1 = sort_values key l2.
Proof.
  intros Hnd Hperm. apply (StronglySorted_unique_on (key_rel key)).
  - intros a b Ha%elem_of_sort_values Hb%elem_of_sort_values Hab Hba.
    apply (NoDup_fmap_eq key l1); [done..|].
    unfold key_rel in Hab, Hba. apply Is_true_true in Hab, Hba.
    by apply key_le_antisym.
  - apply sort_values_sorted.
  - apply sort_values_sorted.
  - by rewrite !sort_values_perm.
Qed.

End SortUnique.

Section ParserOrder.
Import DataTools Parsers.

(** The parsers sort the raw rows first, so the order of the rows in the
    raw file does not matter when the sort keys (the answer times, the step
    start times, the order ids) are pairwise distinct: two files with the
    same rows give the same interaction history. *)
Theorem parsers_ignore_row_order :
  (∀ raws raws' : list GrockitRow,
     NoDup (g_answered_at <$> raws) → raws ≡ₚ raws' →
     interaction_history_from_grockit_data_set raws
     = interaction_history_from_grockit_data_set raws')
  ∧ (∀ raws raws' : list KddRow,
       NoDup (k_step_start_time <$> raws) → raws ≡ₚ raws' →
       interaction_history_from_kdd_cup_data_set raws
       = interaction_history_from_kdd_cup_data_set raws')
  ∧ (∀ (raws raws' : list AssistmentsRow) duration_column module_id_column,
       NoDup (a_order_id <$> raws) → raws ≡ₚ raws' →
       interaction_history_from_assistments_data_set raws duration_column module_id_column
       = interaction_history_from_assistments_data_set raws' duration_column
           module_id_column).
Proof.
  split; [|split].
  - intros raws raws' Hnd Hperm.
    unfold interaction_history_from_grockit_data_set.
    by rewrite (sort_values_Permutation g_answered_at raws raws' Hnd Hperm).
  - intros raws raws' Hnd Hperm.
    unfold interaction_history_from_kdd_cup_data_set.
    by rewrite (sort_values_Permutation k_step_start_time raws raws' Hnd Hperm).
  - intros raws raws' duration_column module_id_column Hnd Hperm.
    unfold interaction_history_from_assistments_data_set.
    rewrite (sort_values_Permutation (λ r, Some (a_order_id r)) raws raws'); [done| |done].
    rewrite (list_fmap_compose a_order_id Some). apply (NoDup_fmap_2 Some), Hnd.
Qed.

(** Two raw rows of one student, in the order of the file and swapped. *)
Definition two_raw_rows : list AssistmentsRow :=
  [ mkAssistmentsRow 0 7 (Some 1%Q) (Some 2500%Q) 100 30;
    mkAssistmentsRow 1 7 (Some 0%Q) (Some 900%Q) 101 20 ].

Lemma parsers_ignore_row_order_witness :
  interaction_history_from_assistments_data_set two_raw_rows
    a_ms_first_response_time a_problem_id
  = interaction_history_from_assistments_data_set (reverse two_raw_rows)
      a_ms_first_response_time a_problem_id.
Proof.
  apply (proj2 (proj2 parsers_ignore_row_order)).
  - apply (bool_decide_unpack (NoDup _)). by vm_compute.
  - apply Permutation_swap.
Defined.

End ParserOrder.

Section FilterWindow.
Import DataTools Filter.

(** A window that is empty, [max_num_ixns <= min_num_ixns + 1], leaves no
    row: an assessment interaction at a timestep above the minimum is
    already at a timestep of the maximum or more. *)
Theorem filter_history_empty_window (history : InteractionHistory)
    (min_num_ixns max_num_ixns : Z) :
  (max_num_ixns ≤ min_num_ixns + 1)%Z →
  data (filter_history history min_num_ixns max_num_ixns) = [].
Proof.
  intros Hwindow. rewrite filter_history_data. unfold selected_rows.
  assert (kept_students (data history) min_num_ixns max_num_ixns = ∅) as ->.
  { apply set_eq. intros s. rewrite elem_of_kept_students. split; [|by intros ?%elem_of_empty].
    intros [(r & Hr & Hs & _ & Hmin) Hmax]. specialize (Hmax r Hr Hs). lia. }
  generalize (kept_modules (data history) min_num_ixns) as modules. intros modules.
  induction (data history) as [|r rows IH]; [done|].
  rewrite filter_cons_False; [exact IH|].
  intros [Hs _]. by apply elem_of_empty in Hs.
Qed.

Definition short_history : InteractionHistory :=
  mkHistory
    [ mkInteraction 0 1 10 Assessment (Some true) 1 None None;
      mkInteraction 1 1 10 Assessment (Some true) 2 None None ].

Lemma filter_history_empty_window_witness :
  data (filter_history short_history 1 2) = [].
Proof. apply filter_history_empty_window. lia. Defined.

End FilterWindow.

Section IRTEdges.
Import DataTools Rand IRT.
Context (rng : Rng).

Lemma for_each_skip {St A} (l : list A) (body : A → gen St unit) (st : St) :
  (∀ x, x ∈ l → body x st = Some (tt, st)) → for_each l body st = Some (tt, st).
Proof.
  induction l as [|x l IH]; intros Hbody; [done|].
  simpl. unfold mbind, gen_bind. rewrite (Hbody x) by left.
  apply IH. intros y Hy. apply Hbody. by right.
Qed.

(** The IRT generator raises exactly when there is an interaction to sample
    and no assessment to choose from ([random.choice] on an empty list);
    in every other case it returns a table. *)
Theorem synthetic_history_raises_iff (num_students num_assessments n : nat)
    (using_2pl : bool) :
  synthetic_history rng num_students num_assessments n using_2pl = None
  ↔ num_assessments = 0 ∧ 0 < num_students ∧ 0 < n.
Proof.
  split.
  - intros Hnone.
    destruct (decide (0 < num_assessments)) as [Hna|Hna].
    { destruct (synthetic_history_spec rng num_students num_assessments n using_2pl Hna)
        as (p & σ & rows & _ & Hrun & _). by rewrite Hrun in Hnone. }
    split; [lia|].
    destruct (decide (0 < num_students ∧ 0 < n)) as [?|Hzero]; [done|]. exfalso.
    revert Hnone. unfold synthetic_history.
    destruct (draw_params rng num_students num_assessments using_2pl seed) as [p σ].
    assert (num_students * n = 0) as -> by nia.
    assert (sample_ixns rng num_students num_assessments n p (mkState σ (replicate 0 None))
            = Some (tt, mkState σ (replicate 0 None))) as ->; [|done].
    unfold sample_ixns. apply for_each_skip. intros [student_idx student_id] Hin.
    apply for_each_skip. intros t Ht%elem_of_seq.
    apply list_elem_of_lookup in Hin as [i Hi].
    rewrite list_lookup_imap in Hi. unfold student_ids in Hi.
    rewrite list_lookup_fmap in Hi.
    destruct (seq 0 num_students !! i) as [x|] eqn:Hx; [|done].
    apply lookup_seq in Hx as [_ Hx]. lia.
  - intros (-> & Hs & Hn). unfold synthetic_history.
    destruct (draw_params rng num_students 0 using_2pl seed) as [p σ].
    destruct num_students as [|ns]; [lia|]. destruct n as [|n]; [lia|].
    reflexivity.
Qed.

End IRTEdges.

(** ** The repeated filter and its thresholds *)

Section RepeatedFilter.
Import DataTools Filter.

(** The assessment interactions of one student on the given modules, at
    timesteps 1, 2, ... *)
Definition student_rows (s : Z) (first_index : nat) (modules : list Z)
    : list Interaction :=
  imap (λ i m, mkInteraction (first_index + i) s m Assessment (Some true) (i + 1)
                 None None) modules.

(** Three students with 76 interactions each.  Module 10 has one
    interaction, the last of student 1; module 11 has the other 75
    interactions of student 1 and the last of student 2. *)
Definition cascade : InteractionHistory :=
  mkHistory (student_rows 1 0 (replicate 75 11%Z ++ [10%Z])
             ++ student_rows 2 76 (replicate 75 12%Z ++ [11%Z])
             ++ student_rows 3 152 (replicate 76 12%Z)).

(** The three passes of the filtering cell need not reach a fixed point: a
    fourth pass can still remove rows. *)
Theorem three_passes_not_enough :
  ∃ unfiltered_history,
    length (data (filter_history (repeated_filter unfiltered_history) 75 1000))
    < length (data (repeated_filter unfiltered_history)).
Proof. exists cascade. vm_compute. lia. Qed.

Lemma filter_sublist_impl {A} (P Q : A → Prop) `{!∀ x, Decision (P x)}
    `{!∀ x, Decision (Q x)} (l : list A) :
  (∀ x, x ∈ l → P x → Q x) → filter P l `sublist_of` filter Q l.
Proof.
  induction l as [|x l IH]; intros Himpl; [done|].
  assert (filter P l `sublist_of` filter Q l) as Hl
    by (apply IH; intros y Hy; apply Himpl; by right).
  destruct (decide (P x)) as [HP|HP].
  - rewrite (filter_cons_True P) by done.
    rewrite (filter_cons_True Q) by (apply Himpl; [left|done]).
    by apply sublist_skip.
  - rewrite (filter_cons_False P) by done.
    destruct (decide (Q x)).
    + rewrite (filter_cons_True Q) by done. by apply sublist_cons.
    + by rewrite (filter_cons_False Q).
Qed.

(** Relaxing the thresholds never loses a row: the rows [filter_history]
    selects for [min_num_ixns] and [max_num_ixns] are, in order, among the
    rows it selects for a smaller minimum and a larger maximum. *)
Theorem filter_history_monotone (history : InteractionHistory)
    (min_num_ixns min_num_ixns' max_num_ixns max_num_ixns' : Z) :
  (min_num_ixns' ≤ min_num_ixns)%Z → (max_num_ixns ≤ max_num_ixns')%Z →
  selected_rows history min_num_ixns max_num_ixns
  `sublist_of` selected_rows history min_num_ixns' max_num_ixns'.
Proof.
  intros Hmin Hmax. unfold selected_rows. apply filter_sublist_impl.
  intros r Hr [Hs Hm]. split.
  - apply elem_of_kept_students in Hs as [(r' & ? & ? & ? & ?) Hbelow].
    apply elem_of_kept_students. split.
    + exists r'. repeat (split; [done|]). lia.
    + intros r'' Hr'' Hs''. specialize (Hbelow r'' Hr'' Hs''). lia.
  - apply elem_of_kept_modules in Hm as [Hex Hcount].
    apply elem_of_kept_modules. split; [done|lia].
Qed.

Lemma filter_history_monotone_witness :
  selected_rows short_history 1 3 `sublist_of` selected_rows short_history 0 5.
Proof. apply filter_history_monotone; lia. Defined.

End RepeatedFilter.
